(** * Matchmaking and session lifecycle of the UIOw2T backend

    A shallow embedding of [backend/game/__init__.py]: the classes
    [WaitingRoom], [Game] and [GameApp].

    - Python objects that are shared and mutated in place ([Player]) live in
      a store addressed by references; a [WaitingRoom], a [Game] and the
      [GameApp] hold references, never copies.
    - [set] is [gset], [dict] is [gmap], [int] is [Z], [str] is [string].
    - What a method sends through [sio.emit], and each run of the battle
      simulator, is appended to a list of effects.
    - An exception is a result of its own, returned together with the state
      reached when it was raised.
    - A handler runs to its end before the next one starts, so an [await] is
      an ordinary call.
    - [logging] calls are diagnostics and are left out. *)

From stdpp Require Import strings functions gmap fin_maps list.

Local Open Scope string_scope.
Local Open Scope list_scope.
Local Open Scope nat_scope.

(** ** Exceptions and results *)

(** A Python exception, identified by the name of its class. *)
Inductive exn := Exception (cls : string).

Definition ValueError : exn := Exception "ValueError".
Definition KeyError : exn := Exception "KeyError".

Inductive Result (A : Type) :=
| Ok (a : A)
| Raise (e : exn).
Arguments Ok {A} a.
Arguments Raise {A} e.

(** ** Players and the object store *)

Abbreviation ref := nat (only parsing).

(** Modelled from the spec: the class [Player] of [backend/game/player.py],
    which is not among the sources.  The three attributes are the ones
    [backend/game/__init__.py] reads and writes. *)
Record Player := mkPlayer {
  nick : string;
  id : string;
  in_game : bool
}.

(** The store: every reference denotes an object (as in Python), [top] is
    the first reference not yet handed out. *)
Record Heap := mkHeap {
  obj : ref → Player;
  top : ref
}.

Definition store (h : Heap) (r : ref) (p : Player) : Heap :=
  mkHeap (<[r := p]> (obj h)) (top h).

Definition alloc (h : Heap) (p : Player) : ref * Heap :=
  (top h, mkHeap (<[top h := p]> (obj h)) (S (top h))).

(** [p.in_game = b] *)
Definition set_in_game (r : ref) (b : bool) (h : Heap) : Heap :=
  store h r (mkPlayer (nick (obj h r)) (id (obj h r)) b).

(** [p.id = i] *)
Definition set_id (r : ref) (i : string) (h : Heap) : Heap :=
  store h r (mkPlayer (nick (obj h r)) i (in_game (obj h r))).

Module Player.
(** Modelled from the spec: [Player(nick, id)]; a player is "in game" only
    "once drawn into a Session". *)
Definition __init__ (nick id : string) : Player := mkPlayer nick id false.

(** Modelled from the spec: [Player.reconnect], "update its connectionId". *)
Definition reconnect (r : ref) (id : string) (h : Heap) : Heap := set_id r id h.

(** Modelled from the spec: [Player.disconnect], "marks the player
    disconnected"; connectedness is what [Game._all_players_connected]
    reads, the attribute [in_game]. *)
Definition disconnect (r : ref) (h : Heap) : Heap := set_in_game r false h.

(** Modelled from the spec: [Player.reset_after_game], "reset both players'
    transient in-game state (inGame = false)". *)
Definition reset_after_game (r : ref) (h : Heap) : Heap := set_in_game r false h.
End Player.

(** ** random.sample *)

(** [random.sample(population, 2)] of the standard library, for a set
    population, as in the interpreters the project was written for (up to
    Python 3.10): the set is copied to a sequence, a population smaller than
    the sample raises [ValueError], and the two elements are taken at random
    positions without replacement.  [rnd] is what the generator yields. *)
Definition sample2 (population : list ref) (rnd : nat * nat) : Result (ref * ref) :=
  let n := length population in
  if decide (n < 2) then Raise ValueError
  else
    let i := rnd.1 mod n in
    let j := rnd.2 mod (n - 1) in
    match population !! i, delete i population !! j with
    | Some a, Some b => Ok (a, b)
    | _, _ => Raise ValueError
    end.

(** ** class WaitingRoom *)

Module WaitingRoom.

Record t := mk {
  players : gset ref;
  capacity : Z
}.

Definition __init__ (capacity : Z) : t := mk ∅ capacity.

Definition is_full (self : t) : bool :=
  bool_decide (Z.of_nat (size (players self)) = capacity self).

Definition join (self : t) (player : ref) : t :=
  if negb (is_full self) && bool_decide (player ∉ players self)
  then mk ({[player]} ∪ players self) (capacity self)
  else self.

Definition leave (self : t) (player : ref) : t :=
  if bool_decide (player ∈ players self)
  then mk (players self ∖ {[player]}) (capacity self)
  else self.

(** One turn of [for p in players: self.players.discard(p); p.in_game = True]. *)
Definition take (p : ref) (st : t * Heap) : t * Heap :=
  (mk (players st.1 ∖ {[p]}) (capacity st.1), set_in_game p true st.2).

Definition draw_two_players_to_game (rnd : nat * nat) (self : t) (h : Heap)
  : Result (ref * ref) * t * Heap :=
  match sample2 (elements (players self)) rnd with
  | Raise e => (Raise e, self, h)
  | Ok (a, b) =>
      let st := take b (take a (self, h)) in
      (Ok (a, b), st.1, st.2)
  end.

End WaitingRoom.

(** ** The realtime channel *)

(** Modelled from the spec: the event names imported from
    [api.route_constants], which is not among the sources, as the spec's
    table of messages lists them.  Each name stands for itself. *)
Inductive route := GAME_STARTED | GAME_RESULT | SCORE | UNITS_READY | BATTLE_STARTED.

Global Instance route_eq_dec : EqDecision route.
Proof. solve_decision. Defined.

(** What a [Game] does to the outside: [sio.emit(event, data=..., room=...)]
    ([room = None] addresses every client), and a run of
    [BattleSimulator(p0, p1).start_simulation(random_seed=seed)]. *)
Inductive effect :=
| Emit (event : route) (data : list (string * string)) (room : option string)
| Simulation (p0 p1 : Player) (random_seed : Z).

(** ** class Game *)

Module Game.

Record t := mk {
  players : ref * ref;
  is_finished : bool;
  players_quiz_and_units_ready : gmap string (gmap string bool)
}.

(** The state a method of [Game] runs in: the object itself, the store
    with the players, and what has been sent so far. *)
Record St := mkSt {
  self : t;
  heap : Heap;
  sent : list effect
}.

Definition M (A : Type) : Type := St → Result A * St.

Global Instance M_ret : MRet M := λ A a s, (Ok a, s).

Global Instance M_bind : MBind M := λ A B f m s,
  match m s with
  | (Ok a, s') => f a s'
  | (Raise e, s') => (Raise e, s')
  end.

Definition ret {A} (a : A) : M A := mret a.
Definition raise {A} (e : exn) : M A := λ s, (Raise e, s).
Definition read {A} (f : St → A) : M A := λ s, (Ok (f s), s).
Definition update (f : St → St) : M unit := λ s, (Ok tt, f s).

(** [self.players[i]], the attributes read at this moment *)
Definition player0 : M Player := read (λ s, obj (heap s) (players (self s)).1).
Definition player1 : M Player := read (λ s, obj (heap s) (players (self s)).2).

(** [self._sio.emit(event, data=data, room=room)] *)
Definition emit (event : route) (data : list (string * string)) (room : option string)
  : M unit :=
  update (λ s, mkSt (self s) (heap s) (sent s ++ [Emit event data room])).

(** [p.reset_after_game()] for [p = self.players[i]] *)
Definition reset_after_game (which : ref * ref → ref) : M unit :=
  update (λ s, mkSt (self s)
                    (Player.reset_after_game (which (players (self s))) (heap s))
                    (sent s)).

(** [self.is_finished = b] *)
Definition set_is_finished (b : bool) : M unit :=
  update (λ s, mkSt (mk (players (self s)) b (players_quiz_and_units_ready (self s)))
                    (heap s) (sent s)).

(** [self.players_quiz_and_units_ready[player_id][what_is_ready] = True],
    once the outer subscript has found [dictionary] *)
Definition set_ready (player_id what_is_ready : string) (dictionary : gmap string bool)
  : M unit :=
  update (λ s, mkSt (mk (players (self s)) (is_finished (self s))
                        (<[player_id := <[what_is_ready := true]> dictionary]>
                           (players_quiz_and_units_ready (self s))))
                    (heap s) (sent s)).

Definition all_true (dictionary : gmap string bool) : bool :=
  forallb (λ is_ready : bool, is_ready) (map_to_list dictionary).*2.

(** The two nested loops of [start_game_if_ready]: no flag is false. *)
Definition everything_ready (ready : gmap string (gmap string bool)) : bool :=
  forallb all_true (map_to_list ready).*2.

(** [{"units": False, "quiz": False}] *)
Definition not_ready : gmap string bool :=
  <["quiz" := false]> (<["units" := false]> ∅).

(** The dictionary comprehension reads [p.id] of both players now.  The two
    [sio.on] calls make [SCORE] and [UNITS_READY] reach [quiz_results_ready]
    and [units_ready]; see [handle] below. *)
Definition __init__ (players : ref * ref) (h : Heap) : t :=
  mk players false
     (<[id (obj h players.2) := not_ready]> (<[id (obj h players.1) := not_ready]> ∅)).

Section WithSimulator.

(** [BattleSimulator(p0, p1).start_simulation(random_seed)] of
    [backend/game/battle/battle_simulator.py], which is not among the
    sources: a result code, a message and a log. *)
Context {Outcome : Type}.
Variable start_simulation : Player → Player → Z → Outcome * string * string.

Definition simulate (p0 p1 : Player) (random_seed : Z)
  : M (Outcome * string * string) :=
  λ s, (Ok (start_simulation p0 p1 random_seed),
        mkSt (self s) (heap s) (sent s ++ [Simulation p0 p1 random_seed])).

Definition send_game_results (message logs : string) : M unit :=
  let send (player : M Player) : M unit :=
    p ← player;
    if in_game p
    then emit GAME_RESULT [("message", message); ("logs", logs)] (Some (id p))
    else ret tt in
  send player0;; send player1.

Definition _end_game_for_players (message logs : string) : M unit :=
  send_game_results message logs;;
  reset_after_game fst;;
  reset_after_game snd.

Definition battle : M unit :=
  p0 ← player0; p1 ← player1;
  emit BATTLE_STARTED
    [("message", "Battle between " +:+ nick p0 +:+ " and " +:+ nick p1 +:+ " started!")]
    None;;
  '(result, message, logs) ← simulate p0 p1 17;
  _end_game_for_players message logs;;
  set_is_finished true.

Definition start_game_if_ready : M unit :=
  ready ← read (λ s, everything_ready (players_quiz_and_units_ready (self s)));
  if ready : bool then battle else ret tt.

Definition save_what_is_ready (sid what_is_ready : string) : M unit :=
  p0 ← player0; p1 ← player1;
  if negb (bool_decide (id p0 = sid) || bool_decide (id p1 = sid)) then ret tt
  else
    let player_id := if bool_decide (id p0 = sid) then id p0 else id p1 in
    entry ← read (λ s, players_quiz_and_units_ready (self s) !! player_id);
    match entry with
    | None => raise KeyError
    | Some dictionary =>
        set_ready player_id what_is_ready dictionary;;
        start_game_if_ready
    end.

(** The handlers registered for [SCORE] and [UNITS_READY]. *)
Definition quiz_results_ready (sid data : string) : M unit :=
  save_what_is_ready sid "quiz".

Definition units_ready (sid : string) : M unit :=
  save_what_is_ready sid "units".

Definition _all_players_connected : M bool :=
  p0 ← player0;
  if negb (in_game p0) then ret false
  else p1 ← player1; if negb (in_game p1) then ret false else ret true.

Definition set_on_game_started : M unit :=
  connected ← _all_players_connected;
  if connected : bool then
    let message := [("message", "game started")] in
    p0 ← player0; emit GAME_STARTED message (Some (id p0));;
    p1 ← player1; emit GAME_STARTED message (Some (id p1))
  else
    send_game_results "Player disconnected, walkover" "".

End WithSimulator.

End Game.

(** ** class GameApp *)

(** The registry of players and the waiting room.  [current_games], [sio]
    and the endless loop [start_games] play no part in registration and are
    not modelled, except for the draw a turn of that loop makes. *)
Module GameApp.

Record t := mk {
  players : list ref;
  waiting_room : WaitingRoom.t
}.

Definition __init__ : t := mk [] (WaitingRoom.__init__ 2).

(** [next((p for p in self.players if p.nick == nick), None)] *)
Definition get_player_by_nick (self : t) (h : Heap) (nick' : string) : option ref :=
  head (filter (λ p, nick (obj h p) = nick') (players self)).

(** [next((p for p in self.players if p.id == id), None)] *)
Definition get_player_by_id (self : t) (h : Heap) (id' : string) : option ref :=
  head (filter (λ p, id (obj h p) = id') (players self)).

(** A [Player] object is true in a condition, so [if existing_player:]
    asks whether the lookup found one. *)
Definition add_player (nick id : string) (self : t) (h : Heap) : ref * t * Heap :=
  match get_player_by_nick self h nick with
  | Some existing_player =>
      (existing_player, self, Player.reconnect existing_player id h)
  | None =>
      let '(new_player, h') := alloc h (Player.__init__ nick id) in
      (new_player,
       mk (players self ++ [new_player])
          (WaitingRoom.join (waiting_room self) new_player),
       h')
  end.

Definition disconnect_player (player : ref) (self : t) (h : Heap) : t * Heap :=
  (mk (players self) (WaitingRoom.leave (waiting_room self) player),
   Player.disconnect player h).

Definition get_players (self : t) : list ref := players self.

Definition get_players_in_waiting_room (self : t) : gset ref :=
  WaitingRoom.players (waiting_room self).

Definition is_waiting_room_full (self : t) : bool :=
  WaitingRoom.is_full (waiting_room self).

(** The calls that reach the registry: the two request handlers, and the
    draw of a turn of [start_games],
    [if self.is_waiting_room_full(): self.waiting_room.draw_two_players_to_game()]. *)
Inductive call :=
| AddPlayer (nick id : string)
| DisconnectPlayer (player : ref)
| Draw (rnd : nat * nat).

Definition step (st : t * Heap) (c : call) : t * Heap :=
  match c with
  | AddPlayer nick id =>
      let '(_, app, h) := add_player nick id st.1 st.2 in (app, h)
  | DisconnectPlayer player => disconnect_player player st.1 st.2
  | Draw rnd =>
      if is_waiting_room_full st.1 then
        let '(_, room, h) :=
          WaitingRoom.draw_two_players_to_game rnd (waiting_room st.1) st.2 in
        (mk (players st.1) room, h)
      else st
  end.

Definition run (calls : list call) (st : t * Heap) : t * Heap :=
  foldl step st calls.

End GameApp.

(** ** Readiness signals *)

(** What the channel delivers to a [Game]: the events it registered handlers
    for in [__init__], [SCORE] with the connection id and the quiz data, and
    [UNITS_READY] with the connection id. *)
Inductive signal :=
| Score (sid data : string)
| UnitsReady (sid : string).

Definition handle {Outcome} (sim : Player → Player → Z → Outcome * string * string)
    (sg : signal) : Game.M unit :=
  match sg with
  | Score sid data => Game.quiz_results_ready sim sid data
  | UnitsReady sid => Game.units_ready sim sid
  end.

(** Delivery of a sequence of signals, one handler after the other, up to
    the first exception. *)
Fixpoint deliver {Outcome} (sim : Player → Player → Z → Outcome * string * string)
    (signals : list signal) : Game.M unit :=
  match signals with
  | [] => Game.ret tt
  | sg :: rest => handle sim sg;; deliver sim rest
  end.

(** Every method of [Game], to speak about "any operation". *)
Inductive method :=
| QuizResultsReady (sid data : string)
| UnitsReadyM (sid : string)
| SaveWhatIsReady (sid what_is_ready : string)
| StartGameIfReady
| Battle
| EndGameForPlayers (message logs : string)
| AllPlayersConnected
| SetOnGameStarted
| SendGameResults (message logs : string).

Definition invoke {Outcome} (sim : Player → Player → Z → Outcome * string * string)
    (m : method) : Game.M unit :=
  match m with
  | QuizResultsReady sid data => Game.quiz_results_ready sim sid data
  | UnitsReadyM sid => Game.units_ready sim sid
  | SaveWhatIsReady sid what_is_ready => Game.save_what_is_ready sim sid what_is_ready
  | StartGameIfReady => Game.start_game_if_ready sim
  | Battle => Game.battle sim
  | EndGameForPlayers message logs => Game._end_game_for_players message logs
  | AllPlayersConnected => Game._all_players_connected;; Game.ret tt
  | SetOnGameStarted => Game.set_on_game_started
  | SendGameResults message logs => Game.send_game_results message logs
  end.

(** The state after a sequence of method calls, whether or not one of them
    raised. *)
Definition invoke_all {Outcome} (sim : Player → Player → Z → Outcome * string * string)
    (ms : list method) (s : Game.St) : Game.St :=
  foldl (λ s m, (invoke sim m s).2) s ms.

(** ** Vocabulary of the statements *)

(** The two players of a game, as the store has them. *)
Definition first_player (s : Game.St) : Player :=
  obj (Game.heap s) (Game.players (Game.self s)).1.
Definition second_player (s : Game.St) : Player :=
  obj (Game.heap s) (Game.players (Game.self s)).2.

(** The state in which [start_game_if_ready] is called once
    [save_what_is_ready] has set the flag in [dictionary]. *)
Definition flag_set (sid what_is_ready : string) (dictionary : gmap string bool)
    (s : Game.St) : Game.St :=
  Game.mkSt
    (Game.mk (Game.players (Game.self s)) (Game.is_finished (Game.self s))
       (<[sid := <[what_is_ready := true]> dictionary]>
          (Game.players_quiz_and_units_ready (Game.self s))))
    (Game.heap s) (Game.sent s).

(** The inner dictionary with the given values of the two flags. *)
Definition flags (units quiz : bool) : gmap string bool :=
  <["quiz" := quiz]> (<["units" := units]> ∅).

(** The [GAME_RESULT] messages for those of the two players who are in game. *)
Definition game_results (message logs : string) (p0 p1 : Player) : list effect :=
  map (λ p, Emit GAME_RESULT [("message", message); ("logs", logs)] (Some (id p)))
      (List.filter in_game [p0; p1]).

Definition is_simulation (e : effect) : bool :=
  match e with Simulation _ _ _ => true | Emit _ _ _ => false end.

(** How often the simulator ran, one run for each call of [battle]. *)
Definition simulations (l : list effect) : nat :=
  length (List.filter is_simulation l).

Definition is_emit_of (event : route) (e : effect) : bool :=
  match e with
  | Emit event' _ _ => bool_decide (event' = event)
  | Simulation _ _ _ => false
  end.

Definition sender (sg : signal) : string :=
  match sg with Score sid _ => sid | UnitsReady sid => sid end.

Definition kind (sg : signal) : string :=
  match sg with Score _ _ => "quiz" | UnitsReady _ => "units" end.

(** Whether a signal comes from connection id [x] or [y]. *)
Definition from_player (x y : string) (sg : signal) : bool :=
  bool_decide (sender sg = x ∨ sender sg = y).

(** Connection id [x] has sent a signal of kind [k]. *)
Definition signalled (seen : list signal) (x k : string) : bool :=
  existsb (λ sg, bool_decide (sender sg = x) && bool_decide (kind sg = k)) seen.

(** Both kinds have come from both connection ids. *)
Definition complete (seen : list signal) (x y : string) : bool :=
  signalled seen x "units" && signalled seen x "quiz"
  && signalled seen y "units" && signalled seen y "quiz".

(** The number of signals of a sequence that come from [x] or [y] when,
    counting the signal itself, both kinds have come from both. *)
Fixpoint battles_due (x y : string) (seen signals : list signal) : nat :=
  match signals with
  | [] => 0
  | sg :: rest =>
      (if from_player x y sg && complete (sg :: seen) x y then 1 else 0)
      + battles_due x y (sg :: seen) rest
  end.

(** The readiness dictionary of a game between connection ids [x] and [y]
    that has received the signals [seen]. *)
Definition ready_map (x y : string) (seen : list signal) : gmap string (gmap string bool) :=
  <[y := flags (signalled seen y "units") (signalled seen y "quiz")]>
    (<[x := flags (signalled seen x "units") (signalled seen x "quiz")]> ∅).

(** The game between the players at [a] and [b], with connection ids [x]
    and [y], after the signals [seen]. *)
Definition game_after (a b : nat) (x y : string) (seen : list signal) (s : Game.St) : Prop :=
  Game.players (Game.self s) = (a, b)
  ∧ id (obj (Game.heap s) a) = x
  ∧ id (obj (Game.heap s) b) = y
  ∧ Game.players_quiz_and_units_ready (Game.self s) = ready_map x y seen.

(** Flags only ever go from false to true, and no entry disappears. *)
Definition flags_grow (m m' : gmap string (gmap string bool)) : Prop :=
  ∀ x d, m !! x = Some d →
    ∃ d', m' !! x = Some d' ∧
      ∀ k v, d !! k = Some v → ∃ v', d' !! k = Some v' ∧ (v = true → v' = true).

(** The registry holds no nickname twice, and only players that exist. *)
Definition registry_ok (app : GameApp.t) (h : Heap) : Prop :=
  NoDup ((λ p, nick (obj h p)) <$> GameApp.players app)
  ∧ Forall (λ p, p < top h) (GameApp.players app).

(** The entries of the registry with a given nickname. *)
Definition entries_for (nick' : string) (app : GameApp.t) (h : Heap) : list nat :=
  filter (λ p, nick (obj h p) = nick') (GameApp.players app).

(** ** Concrete objects for the examples *)

(** A store in which nothing has been allocated. *)
Definition empty_heap : Heap := mkHeap (λ _, mkPlayer "" "" false) 0.

(** A simulator that always reports a draw. *)
Definition draw_simulation (p0 p1 : Player) (random_seed : Z) : unit * string * string :=
  (tt, "draw", "log").

(** Alice and Bob, drawn into a game and connected. *)
Definition two_players : Heap :=
  mkHeap (<[1 := mkPlayer "bob" "sid-b" true]>
            (<[0 := mkPlayer "alice" "sid-a" true]> (obj empty_heap))) 2.

(** The same after Bob has disconnected. *)
Definition bob_left : Heap := Player.disconnect 1 two_players.

(** The game of the players at references 0 and 1, just created. *)
Definition fresh_game (h : Heap) : Game.St :=
  Game.mkSt (Game.__init__ (0, 1) h) h [].

(** Alice and Bob each send both signals. *)
Definition four_signals : list signal :=
  [UnitsReady "sid-a"; Score "sid-a" "9"; Score "sid-b" "7"; UnitsReady "sid-b"].

(** The game of Alice and Bob when only Bob's [UNITS_READY] is missing. *)
Definition one_flag_missing : Game.St :=
  (deliver draw_simulation (take 3 four_signals) (fresh_game two_players)).2.

(** ** Sequences of calls on a waiting room *)

Inductive room_call :=
| Join (player : nat)
| Leave (player : nat)
| DrawTwo (rnd : nat * nat).

(** One call; a draw that raises leaves the room and the store as they were
    when it raised. *)
Definition room_step (st : WaitingRoom.t * Heap) (c : room_call) : WaitingRoom.t * Heap :=
  match c with
  | Join player => (WaitingRoom.join st.1 player, st.2)
  | Leave player => (WaitingRoom.leave st.1 player, st.2)
  | DrawTwo rnd =>
      let '(_, room, h) := WaitingRoom.draw_two_players_to_game rnd st.1 st.2 in
      (room, h)
  end.

Definition room_run (calls : list room_call) (st : WaitingRoom.t * Heap)
  : WaitingRoom.t * Heap :=
  foldl room_step st calls.

(** ** The games of the application *)

(** [GameApp.current_games] and the methods that use it.  A game is listed by
    value: the methods below read only [g.players], which no method of [Game]
    assigns, and [current_games] is only ever appended to. *)
Module Matchmaking.

(** [nick in [p.nick for p in g.players]] *)
Definition plays (h : Heap) (nick' : string) (g : Game.t) : Prop :=
  nick' ∈ [nick (obj h (Game.players g).1); nick (obj h (Game.players g).2)].

Global Instance plays_dec h nick' g : Decision (plays h nick' g).
Proof. unfold plays. apply _. Defined.

(** A method that falls off its end returns [None]. *)
Definition get_player_game (current_games : list Game.t) (h : Heap) (nick' : string)
  : option Game.t :=
  let games := filter (plays h nick') current_games in
  if decide (0 < length games) then games !! (length games - 1) else None.

(** One turn of the [while True] of [start_games], up to [asyncio.sleep(5)]:
    the application, its games, the store and what has been sent. *)
Definition start_games_turn (rnd : nat * nat) (self : GameApp.t)
    (current_games : list Game.t) (h : Heap) (sent : list effect)
  : Result unit * GameApp.t * list Game.t * Heap * list effect :=
  if GameApp.is_waiting_room_full self then
    match WaitingRoom.draw_two_players_to_game rnd (GameApp.waiting_room self) h with
    | (Raise e, room, h') =>
        (Raise e, GameApp.mk (GameApp.players self) room, current_games, h', sent)
    | (Ok players, room, h') =>
        let game := Game.__init__ players h' in
        let '(r, s) := Game.set_on_game_started (Game.mkSt game h' sent) in
        (r, GameApp.mk (GameApp.players self) room, current_games ++ [Game.self s],
         Game.heap s, Game.sent s)
    end
  else (Ok tt, self, current_games, h, sent).

End Matchmaking.

(** The state after a sequence of signals, a handler that raises being
    abandoned where it raised. *)
Definition deliver_all {Outcome} (sim : Player → Player → Z → Outcome * string * string)
    (signals : list signal) (s : Game.St) : Game.St :=
  foldl (λ s sg, (handle sim sg s).2) s signals.

(** The first element of a list with a property, as
    [next((p for p in l if ...), None)] finds it: nothing before it has the
    property. *)
Definition first_with {A} (P : A → Prop) (l : list A) (x : A) : Prop :=
  ∃ l1 l2, l = l1 ++ x :: l2 ∧ P x ∧ Forall (λ y, ¬ P y) l1.

(** The last element of a list with a property. *)
Definition last_with {A} (P : A → Prop) (l : list A) (x : A) : Prop :=
  ∃ l1 l2, l = l1 ++ x :: l2 ∧ P x ∧ Forall (λ y, ¬ P y) l2.

(** What a signal sets: the flag [kind] of the entry [sender]. *)
Definition flag_of (sg : signal) : string * string := (sender sg, kind sg).

(** The four flags of a game between connection ids [x] and [y]. *)
Definition four_flags (x y : string) : list (string * string) :=
  [(x, "units"); (x, "quiz"); (y, "units"); (y, "quiz")].

(** The game of Alice and Bob after Alice has come back under the
    connection id "sid-a2". *)
Definition alice_reconnected : Game.St :=
  Game.mkSt (Game.__init__ (0, 1) two_players) (Player.reconnect 0 "sid-a2" two_players) [].

(** Signals under every connection id Alice and Bob ever had. *)
Definition signals_after_reconnection : list signal :=
  four_signals ++ [UnitsReady "sid-a2"; Score "sid-a2" "9"].

(** The waiting room of the application has capacity 2, is within it, and
    only registered players wait. *)
Definition queue_ok (app : GameApp.t) : Prop :=
  WaitingRoom.capacity (GameApp.waiting_room app) = 2%Z
  ∧ size (WaitingRoom.players (GameApp.waiting_room app)) ≤ 2
  ∧ ∀ p, p ∈ WaitingRoom.players (GameApp.waiting_room app) → p ∈ GameApp.players app.

(** Alice and Bob register, Bob disconnects, Carol registers, a turn of
    [start_games] draws. *)
Definition some_calls : list GameApp.call :=
  [GameApp.AddPlayer "alice" "sid-a"; GameApp.AddPlayer "bob" "sid-b";
   GameApp.DisconnectPlayer 1; GameApp.AddPlayer "carol" "sid-c"; GameApp.Draw (0, 0)].

(** The application after Alice and Bob have registered. *)
Definition two_registered : GameApp.t * Heap :=
  GameApp.run [GameApp.AddPlayer "alice" "sid-a"; GameApp.AddPlayer "bob" "sid-b"]
    (GameApp.__init__, empty_heap).

(** A waiting room of capacity 2 with the players at 3 and 5. *)
Definition two_waiting : WaitingRoom.t := WaitingRoom.mk {[3; 5]} 2.

(** A late comer, two draws of which the second fails, and a leave. *)
Definition some_room_calls : list room_call :=
  [Join 9; DrawTwo (1, 0); DrawTwo (0, 0); Join 9; Leave 3].

(** A store in which Alice and Bob share one connection id. *)
Definition shared_connection : Heap :=
  mkHeap (<[1 := mkPlayer "bob" "sid-a" true]>
            (<[0 := mkPlayer "alice" "sid-a" true]> (obj empty_heap))) 2.

(** * Properties *)

(** ** The store *)

Lemma obj_set_in_game_eq r b h :
  obj (set_in_game r b h) r = mkPlayer (nick (obj h r)) (id (obj h r)) b.
Proof. unfold set_in_game, store; simpl. apply fn_lookup_insert. Qed.

Lemma obj_set_in_game_ne r r' b h :
  r ≠ r' → obj (set_in_game r b h) r' = obj h r'.
Proof. intros Hne. unfold set_in_game, store; simpl. by apply fn_lookup_insert_ne. Qed.

Lemma nick_set_in_game r r' b h : nick (obj (set_in_game r b h) r') = nick (obj h r').
Proof.
  destruct (decide (r = r')) as [->|Hne];
    [by rewrite obj_set_in_game_eq | by rewrite obj_set_in_game_ne].
Qed.

Lemma id_set_in_game r r' b h : id (obj (set_in_game r b h) r') = id (obj h r').
Proof.
  destruct (decide (r = r')) as [->|Hne];
    [by rewrite obj_set_in_game_eq | by rewrite obj_set_in_game_ne].
Qed.

Lemma in_game_set_in_game r r' b h :
  in_game (obj (set_in_game r b h) r') = if decide (r = r') then b else in_game (obj h r').
Proof.
  case_decide as Hr; [subst; by rewrite obj_set_in_game_eq | by rewrite obj_set_in_game_ne].
Qed.

Lemma top_set_in_game r b h : top (set_in_game r b h) = top h.
Proof. done. Qed.

Lemma nick_set_id r r' i h : nick (obj (set_id r i h) r') = nick (obj h r').
Proof.
  unfold set_id, store; simpl. destruct (decide (r = r')) as [->|Hne];
    [by rewrite fn_lookup_insert | by rewrite fn_lookup_insert_ne].
Qed.

Lemma id_set_id_eq r i h : id (obj (set_id r i h) r) = i.
Proof. unfold set_id, store; simpl. by rewrite fn_lookup_insert. Qed.

(** ** random.sample *)

Lemma sample2_small (l : list nat) rnd :
  length l < 2 → sample2 l rnd = Raise ValueError.
Proof. intros Hl. unfold sample2. by rewrite decide_True. Qed.

Lemma sample2_some (l : list nat) rnd :
  2 ≤ length l → ∃ a b, sample2 l rnd = Ok (a, b).
Proof.
  intros Hl. unfold sample2. rewrite decide_False by lia.
  set (i := rnd.1 mod length l). set (j := rnd.2 mod (length l - 1)).
  assert (Hi : i < length l) by (apply Nat.mod_upper_bound; lia).
  assert (Hj : j < length l - 1) by (apply Nat.mod_upper_bound; lia).
  destruct (lookup_lt_is_Some_2 l i Hi) as [a Ha]. rewrite Ha.
  assert (Hd : j < length (delete i l)) by (rewrite length_delete; eauto).
  destruct (lookup_lt_is_Some_2 _ j Hd) as [b Hb]. rewrite Hb. eauto.
Qed.

Lemma sample2_distinct (l : list nat) rnd a b :
  NoDup l → sample2 l rnd = Ok (a, b) → a ∈ l ∧ b ∈ l ∧ a ≠ b.
Proof.
  intros Hnd. unfold sample2. case_decide; [done|].
  set (i := rnd.1 mod length l). set (j := rnd.2 mod (length l - 1)).
  destruct (l !! i) as [a'|] eqn:Ha; [|done].
  destruct (delete i l !! j) as [b'|] eqn:Hb; [|done].
  intros [= -> ->]. split; [by eapply list_elem_of_lookup_2|].
  destruct (decide (j < i)) as [Hlt|Hge].
  - rewrite list_lookup_delete_lt in Hb by done.
    split; [by eapply list_elem_of_lookup_2|].
    intros ->. pose proof (NoDup_lookup _ _ _ _ Hnd Ha Hb). lia.
  - rewrite list_lookup_delete_ge in Hb by lia.
    split; [by eapply list_elem_of_lookup_2|].
    intros ->. pose proof (NoDup_lookup _ _ _ _ Hnd Ha Hb). lia.
Qed.

(** Every ordered pair of distinct elements is drawn for some [rnd]. *)
Lemma sample2_any (l : list nat) a b :
  NoDup l → a ∈ l → b ∈ l → a ≠ b → ∃ rnd, sample2 l rnd = Ok (a, b).
Proof.
  intros Hnd [i Ha]%list_elem_of_lookup_1 [k Hb]%list_elem_of_lookup_1 Hab.
  pose proof (lookup_lt_Some _ _ _ Ha) as Hi.
  pose proof (lookup_lt_Some _ _ _ Hb) as Hk.
  assert (Hik : i ≠ k) by (intros ->; congruence).
  exists (i, if decide (k < i) then k else k - 1).
  unfold sample2. rewrite decide_False by lia. simpl.
  rewrite Nat.mod_small by done. rewrite Ha.
  case_decide.
  - rewrite Nat.mod_small by lia. rewrite list_lookup_delete_lt by done. by rewrite Hb.
  - rewrite Nat.mod_small by lia. rewrite list_lookup_delete_ge by lia.
    replace (S (k - 1)) with k by lia. by rewrite Hb.
Qed.

(** ** WaitingRoom *)

Lemma join_capacity room p :
  WaitingRoom.capacity (WaitingRoom.join room p) = WaitingRoom.capacity room.
Proof. unfold WaitingRoom.join. by case_match. Qed.

Lemma join_within_capacity room p :
  (Z.of_nat (size (WaitingRoom.players room)) ≤ WaitingRoom.capacity room)%Z →
  (Z.of_nat (size (WaitingRoom.players (WaitingRoom.join room p)))
   ≤ WaitingRoom.capacity (WaitingRoom.join room p))%Z.
Proof.
  intros Hle. unfold WaitingRoom.join, WaitingRoom.is_full.
  destruct (bool_decide (Z.of_nat _ = _)) eqn:Hfull; simpl; [done|].
  apply bool_decide_eq_false in Hfull.
  destruct (bool_decide (p ∉ _)) eqn:Hnew; simpl; [|done].
  apply bool_decide_eq_true in Hnew.
  rewrite size_union by set_solver. rewrite size_singleton. lia.
Qed.

Lemma joins_within_capacity (joining : list nat) room :
  (Z.of_nat (size (WaitingRoom.players room)) ≤ WaitingRoom.capacity room)%Z →
  (Z.of_nat (size (WaitingRoom.players (foldl WaitingRoom.join room joining)))
   ≤ WaitingRoom.capacity (foldl WaitingRoom.join room joining))%Z
  ∧ WaitingRoom.capacity (foldl WaitingRoom.join room joining) = WaitingRoom.capacity room.
Proof.
  revert room. induction joining as [|p joining IH]; intros room Hle; simpl; [done|].
  destruct (IH (WaitingRoom.join room p)) as [H1 H2]; [by apply join_within_capacity|].
  split; [done|]. by rewrite H2, join_capacity.
Qed.

(** A room is created within its capacity exactly when the capacity is not
    negative. *)
Lemma init_within_capacity c :
  (Z.of_nat (size (WaitingRoom.players (WaitingRoom.__init__ c)))
   ≤ WaitingRoom.capacity (WaitingRoom.__init__ c))%Z ↔ (0 ≤ c)%Z.
Proof.
  unfold WaitingRoom.__init__. cbn [WaitingRoom.players WaitingRoom.capacity].
  rewrite size_empty. lia.
Qed.

Lemma draw_unfold rnd room h a b :
  sample2 (elements (WaitingRoom.players room)) rnd = Ok (a, b) →
  WaitingRoom.draw_two_players_to_game rnd room h =
    (Ok (a, b),
     WaitingRoom.mk (WaitingRoom.players room ∖ {[a]} ∖ {[b]}) (WaitingRoom.capacity room),
     set_in_game b true (set_in_game a true h)).
Proof. intros Hs. unfold WaitingRoom.draw_two_players_to_game. by rewrite Hs. Qed.

(** C2: on a waiting room with at least two members,
    [draw_two_players_to_game] returns two distinct players that were both
    members; afterwards neither is a member and both have [in_game] true. *)
Theorem draw_two_players_to_game_pair rnd (room : WaitingRoom.t) (h : Heap) :
  2 ≤ size (WaitingRoom.players room) →
  ∃ a b room' h',
    WaitingRoom.draw_two_players_to_game rnd room h = (Ok (a, b), room', h')
    ∧ a ≠ b
    ∧ a ∈ WaitingRoom.players room ∧ b ∈ WaitingRoom.players room
    ∧ (a ∉ WaitingRoom.players room') ∧ (b ∉ WaitingRoom.players room')
    ∧ in_game (obj h' a) = true ∧ in_game (obj h' b) = true.
Proof.
  intros Hsize.
  destruct (sample2_some (elements (WaitingRoom.players room)) rnd) as (a & b & Hs);
    [done|].
  destruct (sample2_distinct _ _ _ _ (NoDup_elements _) Hs) as (Ha & Hb & Hab).
  exists a, b. eexists _, _. split; [by apply draw_unfold|].
  cbn [WaitingRoom.players]. rewrite !in_game_set_in_game.
  rewrite (decide_True (P := b = b)) by done.
  rewrite elem_of_elements in Ha, Hb.
  split_and!; [done|done|done| | | |done].
  - rewrite !elem_of_difference, elem_of_singleton. tauto.
  - rewrite elem_of_difference, elem_of_singleton. tauto.
  - repeat case_decide; done.
Qed.

Lemma draw_two_players_to_game_pair_witness :
  2 ≤ size (WaitingRoom.players (WaitingRoom.mk {[3; 5; 8]} 3))
  ∧ ∃ a b room' h',
      WaitingRoom.draw_two_players_to_game (4, 7) (WaitingRoom.mk {[3; 5; 8]} 3) empty_heap
        = (Ok (a, b), room', h')
      ∧ a ≠ b
      ∧ a ∈ WaitingRoom.players (WaitingRoom.mk {[3; 5; 8]} 3)
      ∧ b ∈ WaitingRoom.players (WaitingRoom.mk {[3; 5; 8]} 3)
      ∧ (a ∉ WaitingRoom.players room') ∧ (b ∉ WaitingRoom.players room')
      ∧ in_game (obj h' a) = true ∧ in_game (obj h' b) = true.
Proof.
  assert (H : 2 ≤ size (WaitingRoom.players (WaitingRoom.mk {[3; 5; 8]} 3)))
    by (vm_compute; lia).
  split; [exact H|]. exact (draw_two_players_to_game_pair (4, 7) _ empty_heap H).
Defined.

(** C3, as the code has it: on a waiting room with fewer than two members,
    [draw_two_players_to_game] fails with the [ValueError] of
    [random.sample], before anything is changed. *)
Theorem draw_two_players_to_game_too_few rnd (room : WaitingRoom.t) (h : Heap) :
  size (WaitingRoom.players room) < 2 →
  WaitingRoom.draw_two_players_to_game rnd room h = (Raise ValueError, room, h).
Proof.
  intros Hsize. unfold WaitingRoom.draw_two_players_to_game.
  by rewrite sample2_small.
Qed.

Lemma draw_two_players_to_game_too_few_witness :
  size (WaitingRoom.players (WaitingRoom.mk {[3]} 2)) < 2
  ∧ WaitingRoom.draw_two_players_to_game (4, 7) (WaitingRoom.mk {[3]} 2) empty_heap
    = (Raise ValueError, WaitingRoom.mk {[3]} 2, empty_heap).
Proof.
  assert (H : size (WaitingRoom.players (WaitingRoom.mk {[3]} 2)) < 2)
    by (vm_compute; lia).
  split; [exact H|]. exact (draw_two_players_to_game_too_few (4, 7) _ empty_heap H).
Defined.

(** C3, as stated, fails: drawing from the empty room raises the sampling
    routine's [ValueError], not an [InsufficientMembers] condition. *)
Lemma draw_from_empty_room_is_ValueError :
  (WaitingRoom.draw_two_players_to_game (0, 0) (WaitingRoom.__init__ 2) empty_heap).1.1
    = Raise (Exception "ValueError")
  ∧ (WaitingRoom.draw_two_players_to_game (0, 0) (WaitingRoom.__init__ 2) empty_heap).1.1
    ≠ Raise (Exception "InsufficientMembers").
Proof. split; [reflexivity | vm_compute; discriminate]. Qed.

(** C6, as the code has it: in a waiting room that is within its capacity
    (every room created with a capacity that is not negative), the number of
    members stays within the capacity after every call of a sequence of
    [join] calls, and no player is a member twice. *)
Theorem join_never_exceeds_capacity (room : WaitingRoom.t) (joining : list nat) (n : nat) :
  (Z.of_nat (size (WaitingRoom.players room)) ≤ WaitingRoom.capacity room)%Z →
  let room' := foldl WaitingRoom.join room (take n joining) in
  (Z.of_nat (size (WaitingRoom.players room')) ≤ WaitingRoom.capacity room')%Z
  ∧ WaitingRoom.capacity room' = WaitingRoom.capacity room
  ∧ NoDup (elements (WaitingRoom.players room')).
Proof.
  intros Hle room'.
  destruct (joins_within_capacity (take n joining) room Hle) as [H1 H2].
  repeat split; [done|done|apply NoDup_elements].
Qed.

Lemma join_never_exceeds_capacity_witness :
  (Z.of_nat (size (WaitingRoom.players (WaitingRoom.__init__ 2)))
   ≤ WaitingRoom.capacity (WaitingRoom.__init__ 2))%Z
  ∧ let room' := foldl WaitingRoom.join (WaitingRoom.__init__ 2) (take 4 [7; 7; 9; 4]) in
    (Z.of_nat (size (WaitingRoom.players room')) ≤ WaitingRoom.capacity room')%Z
    ∧ WaitingRoom.capacity room' = WaitingRoom.capacity (WaitingRoom.__init__ 2)
    ∧ NoDup (elements (WaitingRoom.players room')).
Proof.
  assert (H : (Z.of_nat (size (WaitingRoom.players (WaitingRoom.__init__ 2)))
               ≤ WaitingRoom.capacity (WaitingRoom.__init__ 2))%Z)
    by (vm_compute; discriminate).
  split; [exact H|].
  exact (join_never_exceeds_capacity (WaitingRoom.__init__ 2) [7; 7; 9; 4] 4 H).
Defined.

(** C6, as stated, fails: a room created with capacity -1 is never full, and
    after one [join] it has more members than its capacity. *)
Lemma join_exceeds_negative_capacity :
  ¬ (Z.of_nat (size (WaitingRoom.players (WaitingRoom.join (WaitingRoom.__init__ (-1)) 0)))
     ≤ WaitingRoom.capacity (WaitingRoom.join (WaitingRoom.__init__ (-1)) 0))%Z.
Proof. vm_compute. intros H. by apply H. Qed.

(** ** The readiness dictionary *)

Lemma forallb_values {V} (f : V → bool) (m : gmap string V) :
  forallb f (map_to_list m).*2 = true ↔ ∀ k v, m !! k = Some v → f v = true.
Proof.
  rewrite forallb_forall. split.
  - intros Hall k v Hkv. apply Hall, list_elem_of_In, list_elem_of_fmap.
    exists (k, v). split; [done|]. by apply elem_of_map_to_list.
  - intros Hall v [[k v'] [-> Hin]]%list_elem_of_In%list_elem_of_fmap.
    apply elem_of_map_to_list in Hin. eauto.
Qed.

Lemma all_true_spec (d : gmap string bool) :
  Game.all_true d = true ↔ ∀ k v, d !! k = Some v → v = true.
Proof. apply forallb_values. Qed.

Lemma everything_ready_spec (m : gmap string (gmap string bool)) :
  Game.everything_ready m = true ↔ ∀ x d, m !! x = Some d → Game.all_true d = true.
Proof. apply forallb_values. Qed.

Lemma all_true_flags u q : Game.all_true (flags u q) = u && q.
Proof. by destruct u, q. Qed.

Lemma flags_set_units u q : <["units" := true]> (flags u q) = flags true q.
Proof.
  unfold flags. rewrite insert_insert_ne by done. by rewrite insert_insert_eq.
Qed.

Lemma flags_set_quiz u q : <["quiz" := true]> (flags u q) = flags u true.
Proof. unfold flags. by rewrite insert_insert_eq. Qed.

Lemma everything_ready_ready_map x y seen :
  Game.everything_ready (ready_map x y seen) = complete seen x y.
Proof.
  apply Bool.eq_iff_eq_true. rewrite everything_ready_spec. unfold complete, ready_map.
  rewrite !andb_true_iff. split.
  - intros Hall.
    pose proof (Hall y _ (lookup_insert_eq _ _ _)) as Hy.
    rewrite all_true_flags, andb_true_iff in Hy.
    destruct (decide (x = y)) as [->|Hne]; [tauto|].
    assert (Hx : Game.all_true
                   (flags (signalled seen x "units") (signalled seen x "quiz")) = true).
    { apply (Hall x). rewrite lookup_insert_ne by done. apply lookup_insert_eq. }
    rewrite all_true_flags, andb_true_iff in Hx. tauto.
  - intros [[[Hxu Hxq] Hyu] Hyq] z d.
    rewrite lookup_insert. case_decide.
    + intros [= <-]. by rewrite all_true_flags, Hyu, Hyq.
    + rewrite lookup_insert. case_decide; [|by rewrite lookup_empty].
      intros [= <-]. by rewrite all_true_flags, Hxu, Hxq.
Qed.

Lemma signalled_cons sg seen z k :
  signalled (sg :: seen) z k =
    bool_decide (sender sg = z) && bool_decide (kind sg = k) || signalled seen z k.
Proof. reflexivity. Qed.

Lemma ready_map_lookup x y seen z :
  z = x ∨ z = y →
  ready_map x y seen !! z = Some (flags (signalled seen z "units") (signalled seen z "quiz")).
Proof.
  intros Hz. unfold ready_map. rewrite lookup_insert. case_decide; [by subst|].
  rewrite lookup_insert. case_decide; [by subst|]. by destruct Hz.
Qed.

Lemma flags_signalled_cons sg seen z :
  flags (signalled (sg :: seen) z "units") (signalled (sg :: seen) z "quiz") =
    if bool_decide (sender sg = z)
    then <[kind sg := true]> (flags (signalled seen z "units") (signalled seen z "quiz"))
    else flags (signalled seen z "units") (signalled seen z "quiz").
Proof.
  rewrite !signalled_cons. case_bool_decide; cbn [andb orb]; [|done].
  destruct sg; cbn [kind].
  - rewrite flags_set_quiz. rewrite bool_decide_eq_false_2 by done.
    by rewrite bool_decide_eq_true_2 by done.
  - rewrite flags_set_units. rewrite bool_decide_eq_true_2 by done.
    by rewrite (bool_decide_eq_false_2 ("units" = "quiz")) by done.
Qed.

(** Setting the flag of the sender in the dictionary is recording the signal. *)
Lemma ready_map_signal x y seen sg :
  sender sg = x ∨ sender sg = y →
  <[sender sg := <[kind sg := true]>
                   (flags (signalled seen (sender sg) "units")
                          (signalled seen (sender sg) "quiz"))]>
    (ready_map x y seen) = ready_map x y (sg :: seen).
Proof.
  intros Hsg. apply map_eq. intros z. unfold ready_map.
  rewrite !flags_signalled_cons, !lookup_insert.
  repeat (case_decide || case_bool_decide); subst; try done; destruct Hsg; congruence.
Qed.

(** A signal from somebody else leaves the dictionary as it is. *)
Lemma ready_map_stray x y seen sg :
  ¬ (sender sg = x ∨ sender sg = y) →
  ready_map x y (sg :: seen) = ready_map x y seen.
Proof.
  intros Hsg. unfold ready_map. rewrite !flags_signalled_cons.
  rewrite !bool_decide_eq_false_2 by tauto. done.
Qed.

Lemma flags_grow_refl m : flags_grow m m.
Proof. intros x d Hd. exists d. split; [done|]. intros k v Hv. eauto. Qed.

Lemma flags_grow_trans m1 m2 m3 : flags_grow m1 m2 → flags_grow m2 m3 → flags_grow m1 m3.
Proof.
  intros H12 H23 x d Hd.
  destruct (H12 x d Hd) as (d2 & Hd2 & Hk2). destruct (H23 x d2 Hd2) as (d3 & Hd3 & Hk3).
  exists d3. split; [done|]. intros k v Hv.
  destruct (Hk2 k v Hv) as (v2 & Hv2 & Ht2). destruct (Hk3 k v2 Hv2) as (v3 & Hv3 & Ht3).
  exists v3. split; [done|]. auto.
Qed.

Lemma flags_grow_set (m : gmap string (gmap string bool)) sid what_is_ready d :
  m !! sid = Some d → flags_grow m (<[sid := <[what_is_ready := true]> d]> m).
Proof.
  intros Hd x d0 Hd0. destruct (decide (sid = x)) as [->|Hne].
  - exists (<[what_is_ready := true]> d). rewrite lookup_insert_eq. split; [done|].
    assert (d0 = d) as -> by congruence. intros k v Hv.
    destruct (decide (what_is_ready = k)) as [->|Hk].
    + exists true. by rewrite lookup_insert_eq.
    + exists v. by rewrite lookup_insert_ne.
  - exists d0. rewrite lookup_insert_ne by done. split; [done|]. eauto.
Qed.

(** ** Game: what each method computes *)

(** Runs the monadic plumbing of a method on a state given by its fields. *)
Ltac run_M :=
  cbv [mbind mret Game.M_bind Game.M_ret Game.ret Game.raise Game.read Game.update
       Game.emit Game.player0 Game.player1 Game.reset_after_game Game.set_is_finished
       Game.set_ready Game.simulate Game.self Game.heap Game.sent
       Game.players Game.is_finished Game.players_quiz_and_units_ready
       Player.reset_after_game];
  cbn [fst snd negb].

Section GameProperties.

Context {Outcome : Type}.
Variable sim : Player → Player → Z → Outcome * string * string.

Implicit Types s : Game.St.

Lemma send_game_results_eq message logs s :
  Game.send_game_results message logs s =
    (Ok tt, Game.mkSt (Game.self s) (Game.heap s)
              (Game.sent s ++ game_results message logs (first_player s) (second_player s))).
Proof.
  unfold Game.send_game_results, game_results, first_player, second_player.
  destruct s as [[[r0 r1] fin ready] h out]. run_M.
  destruct (in_game (obj h r0)) eqn:E0; run_M;
    destruct (in_game (obj h r1)) eqn:E1; run_M;
    cbn [List.filter]; rewrite E0, E1; cbn [map];
    rewrite <- ?app_assoc, ?app_nil_r; reflexivity.
Qed.

Lemma all_players_connected_eq s :
  Game._all_players_connected s = (Ok (in_game (first_player s) && in_game (second_player s)), s).
Proof.
  unfold Game._all_players_connected, first_player, second_player.
  destruct s as [[[r0 r1] fin ready] h out]. run_M.
  destruct (in_game (obj h r0)); run_M; [|reflexivity].
  destruct (in_game (obj h r1)); run_M; reflexivity.
Qed.

Lemma end_game_for_players_eq message logs s :
  Game._end_game_for_players message logs s =
    (Ok tt,
     Game.mkSt (Game.self s)
       (set_in_game (Game.players (Game.self s)).2 false
          (set_in_game (Game.players (Game.self s)).1 false (Game.heap s)))
       (Game.sent s ++ game_results message logs (first_player s) (second_player s))).
Proof.
  unfold Game._end_game_for_players.
  unfold mbind at 1, Game.M_bind at 1. rewrite send_game_results_eq.
  destruct s as [[[r0 r1] fin ready] h out]. reflexivity.
Qed.

Lemma battle_eq s :
  Game.battle sim s =
    (Ok tt,
     Game.mkSt
       (Game.mk (Game.players (Game.self s)) true
          (Game.players_quiz_and_units_ready (Game.self s)))
       (set_in_game (Game.players (Game.self s)).2 false
          (set_in_game (Game.players (Game.self s)).1 false (Game.heap s)))
       (Game.sent s
        ++ [Emit BATTLE_STARTED
              [("message",
                "Battle between " +:+ nick (first_player s) +:+ " and " +:+ nick (second_player s)
                +:+ " started!")]
              None;
            Simulation (first_player s) (second_player s) 17]
        ++ game_results (sim (first_player s) (second_player s) 17).1.2 (sim (first_player s) (second_player s) 17).2 (first_player s) (second_player s))).
Proof.
  unfold Game.battle, first_player, second_player. destruct s as [[[r0 r1] fin ready] h out].
  run_M. destruct (sim (obj h r0) (obj h r1) 17) as [[result message] logs].
  run_M. rewrite end_game_for_players_eq. unfold first_player, second_player. run_M.
  rewrite <- !app_assoc. reflexivity.
Qed.

Lemma start_game_if_ready_eq s :
  Game.start_game_if_ready sim s =
    if Game.everything_ready (Game.players_quiz_and_units_ready (Game.self s))
    then Game.battle sim s
    else (Ok tt, s).
Proof.
  unfold Game.start_game_if_ready. destruct s as [[[r0 r1] fin ready] h out].
  run_M. destruct (Game.everything_ready ready); reflexivity.
Qed.

Lemma save_what_is_ready_eq sid what_is_ready s :
  Game.save_what_is_ready sim sid what_is_ready s =
    if bool_decide (id (first_player s) = sid ∨ id (second_player s) = sid) then
      match Game.players_quiz_and_units_ready (Game.self s) !! sid with
      | None => (Raise KeyError, s)
      | Some dictionary =>
          Game.start_game_if_ready sim (flag_set sid what_is_ready dictionary s)
      end
    else (Ok tt, s).
Proof.
  unfold Game.save_what_is_ready, flag_set, first_player, second_player.
  destruct s as [[[r0 r1] fin ready] h out]. run_M.
  destruct (decide (id (obj h r0) = sid)) as [E0|E0].
  - rewrite (bool_decide_eq_true_2 _ E0). cbn [orb negb]. run_M.
    rewrite bool_decide_eq_true_2 by tauto. rewrite E0.
    destruct (ready !! sid); reflexivity.
  - rewrite (bool_decide_eq_false_2 _ E0). cbn [orb negb].
    destruct (decide (id (obj h r1) = sid)) as [E1|E1].
    + rewrite (bool_decide_eq_true_2 _ E1). cbn [negb]. run_M.
      rewrite bool_decide_eq_true_2 by tauto. rewrite E1.
      destruct (ready !! sid); reflexivity.
    + rewrite (bool_decide_eq_false_2 _ E1). cbn [negb].
      rewrite bool_decide_eq_false_2 by tauto. reflexivity.
Qed.

Lemma set_on_game_started_eq s :
  Game.set_on_game_started s =
    if in_game (first_player s) && in_game (second_player s) then
      (Ok tt,
       Game.mkSt (Game.self s) (Game.heap s)
         (Game.sent s
          ++ [Emit GAME_STARTED [("message", "game started")] (Some (id (first_player s)));
              Emit GAME_STARTED [("message", "game started")] (Some (id (second_player s)))]))
    else Game.send_game_results "Player disconnected, walkover" "" s.
Proof.
  unfold Game.set_on_game_started.
  unfold mbind at 1, Game.M_bind at 1. rewrite all_players_connected_eq.
  destruct (in_game (first_player s) && in_game (second_player s)); [|reflexivity].
  unfold first_player, second_player. destruct s as [[[r0 r1] fin ready] h out]. run_M.
  rewrite <- !app_assoc. reflexivity.
Qed.

(** *** The walkover *)

(** C4: when [set_on_game_started] finds a player not connected, it sends
    [GAME_RESULT] with the walkover text and an empty log to each player
    who is still connected and to nobody else; it sends no [GAME_STARTED]
    and runs no battle. *)
Theorem walkover_result_to_connected_only s :
  in_game (first_player s) && in_game (second_player s) = false →
  ∃ s' new,
    Game.set_on_game_started s = (Ok tt, s')
    ∧ Game.sent s' = Game.sent s ++ new
    ∧ new = map (λ p, Emit GAME_RESULT
                        [("message", "Player disconnected, walkover"); ("logs", "")]
                        (Some (id p)))
                (List.filter in_game [first_player s; second_player s])
    ∧ List.filter (is_emit_of GAME_STARTED) new = []
    ∧ List.filter (is_emit_of BATTLE_STARTED) new = []
    ∧ simulations new = 0
    ∧ Game.is_finished (Game.self s') = Game.is_finished (Game.self s).
Proof.
  intros Hnot. rewrite set_on_game_started_eq, Hnot, send_game_results_eq.
  eexists _, _. split; [reflexivity|]. split; [reflexivity|].
  split; [reflexivity|]. unfold game_results, simulations. cbn [List.filter].
  destruct (in_game (first_player s)), (in_game (second_player s)); done.
Qed.

(** C10: the walkover branch of [set_on_game_started] only sends the
    walkover [GAME_RESULT], one to each player who is in game and to nobody
    else: the game object, with [is_finished] and the readiness dictionary,
    and the store, with both players' [in_game], are as they were. *)
Theorem walkover_frame s :
  in_game (first_player s) && in_game (second_player s) = false →
  ∃ s' new,
    Game.set_on_game_started s = (Ok tt, s')
    ∧ Game.sent s' = Game.sent s ++ new
    ∧ new = game_results "Player disconnected, walkover" ""
              (first_player s) (second_player s)
    ∧ (∀ e, e ∈ new →
         ∃ p, (p = first_player s ∨ p = second_player s) ∧ in_game p = true
              ∧ e = Emit GAME_RESULT
                      [("message", "Player disconnected, walkover"); ("logs", "")]
                      (Some (id p)))
    ∧ Forall (λ e, is_emit_of GAME_RESULT e = true) new
    ∧ Game.self s' = Game.self s
    ∧ (Game.is_finished (Game.self s) = false →
       Game.is_finished (Game.self s') = false)
    ∧ Game.players_quiz_and_units_ready (Game.self s')
      = Game.players_quiz_and_units_ready (Game.self s)
    ∧ Game.heap s' = Game.heap s
    ∧ in_game (first_player s') = in_game (first_player s)
    ∧ in_game (second_player s') = in_game (second_player s).
Proof.
  intros Hnot. rewrite set_on_game_started_eq, Hnot, send_game_results_eq.
  eexists _, _. split; [reflexivity|]. split; [reflexivity|].
  split; [reflexivity|]. split; [|split; [|done]].
  - intros e (p & -> & Hp)%list_elem_of_fmap.
    apply list_elem_of_In, filter_In in Hp as [Hp Hin]. apply list_elem_of_In in Hp.
    exists p. split_and!; [|done|done].
    apply elem_of_cons in Hp as [->|Hp]; [by left|].
    apply list_elem_of_singleton in Hp as ->. by right.
  - unfold game_results. cbn [List.filter].
    destruct (in_game (first_player s)), (in_game (second_player s));
      repeat constructor.
Qed.

(** *** The battle *)

(** C5: when a signal of one of the two players sets the last missing flag
    and both players are connected, [BATTLE_STARTED] is sent to everybody,
    the simulator runs once, with seed 17, [GAME_RESULT] goes to both
    players with the simulator's message and log, [is_finished] becomes
    true and both players' [in_game] becomes false. *)
Theorem all_flags_true_runs_battle sid what_is_ready dictionary s :
  id (first_player s) = sid ∨ id (second_player s) = sid →
  Game.players_quiz_and_units_ready (Game.self s) !! sid = Some dictionary →
  Game.everything_ready
    (<[sid := <[what_is_ready := true]> dictionary]>
       (Game.players_quiz_and_units_ready (Game.self s))) = true →
  in_game (first_player s) = true →
  in_game (second_player s) = true →
  ∃ s' outcome message logs,
    Game.save_what_is_ready sim sid what_is_ready s = (Ok tt, s')
    ∧ sim (first_player s) (second_player s) 17 = (outcome, message, logs)
    ∧ Game.sent s' =
        Game.sent s
        ++ [Emit BATTLE_STARTED
              [("message",
                "Battle between " +:+ nick (first_player s) +:+ " and "
                +:+ nick (second_player s) +:+ " started!")]
              None;
            Simulation (first_player s) (second_player s) 17;
            Emit GAME_RESULT [("message", message); ("logs", logs)]
              (Some (id (first_player s)));
            Emit GAME_RESULT [("message", message); ("logs", logs)]
              (Some (id (second_player s)))]
    ∧ Game.is_finished (Game.self s') = true
    ∧ in_game (first_player s') = false
    ∧ in_game (second_player s') = false.
Proof.
  intros Hsid Hentry Hready Hin0 Hin1.
  rewrite save_what_is_ready_eq, bool_decide_eq_true_2, Hentry by done.
  rewrite start_game_if_ready_eq. unfold flag_set at 1.
  cbn [Game.self Game.players_quiz_and_units_ready]. rewrite Hready, battle_eq.
  change (first_player (flag_set sid what_is_ready dictionary s))
    with (first_player s).
  change (second_player (flag_set sid what_is_ready dictionary s))
    with (second_player s).
  destruct (sim (first_player s) (second_player s) 17) as [[outcome message] logs].
  eexists _, outcome, message, logs. split; [reflexivity|]. split; [reflexivity|].
  unfold game_results. cbn [List.filter]. rewrite Hin0, Hin1.
  split; [reflexivity|]. split; [reflexivity|].
  unfold first_player, second_player. cbn [Game.heap Game.self Game.players].
  rewrite !in_game_set_in_game. split; repeat case_decide; done.
Qed.

(** *** Readiness signals *)

Lemma simulations_app l1 l2 : simulations (l1 ++ l2) = simulations l1 + simulations l2.
Proof. unfold simulations. by rewrite List.filter_app, length_app. Qed.

Lemma simulations_cons e l :
  simulations (e :: l) = (if is_simulation e then 1 else 0) + simulations l.
Proof. unfold simulations. cbn [List.filter]. by destruct (is_simulation e). Qed.

Lemma simulations_game_results message logs p0 p1 :
  simulations (game_results message logs p0 p1) = 0.
Proof.
  unfold game_results. cbn [List.filter].
  by destruct (in_game p0), (in_game p1).
Qed.

Lemma simulations_battle s :
  simulations (Game.sent (Game.battle sim s).2) = S (simulations (Game.sent s)).
Proof.
  rewrite battle_eq. cbn [snd Game.sent].
  rewrite !simulations_app, simulations_game_results.
  unfold simulations. cbn [List.filter is_simulation length]. lia.
Qed.

Lemma save_what_is_ready_stray sid what_is_ready s :
  id (first_player s) ≠ sid → id (second_player s) ≠ sid →
  Game.save_what_is_ready sim sid what_is_ready s = (Ok tt, s).
Proof.
  intros H0 H1. rewrite save_what_is_ready_eq. by rewrite bool_decide_eq_false_2 by tauto.
Qed.

Lemma handle_game_after a b x y seen sg s :
  game_after a b x y seen s →
  ∃ s', handle sim sg s = (Ok tt, s')
    ∧ game_after a b x y (sg :: seen) s'
    ∧ simulations (Game.sent s') =
        simulations (Game.sent s)
        + (if from_player x y sg && complete (sg :: seen) x y then 1 else 0).
Proof.
  intros (Hp & Hx & Hy & Hm).
  assert (Hh : handle sim sg = Game.save_what_is_ready sim (sender sg) (kind sg))
    by (by destruct sg).
  rewrite Hh, save_what_is_ready_eq. unfold first_player, second_player.
  rewrite Hp. cbn [fst snd]. rewrite Hx, Hy.
  assert (Hiff : (x = sender sg ∨ y = sender sg) ↔ (sender sg = x ∨ sender sg = y))
    by (split; intros [?|?]; auto).
  rewrite (bool_decide_ext _ _ Hiff). unfold from_player.
  case_bool_decide as Hsg; cbn [andb].
  - rewrite Hm, ready_map_lookup by done.
    rewrite start_game_if_ready_eq. unfold flag_set at 1.
    cbn [Game.self Game.players_quiz_and_units_ready].
    rewrite Hm, ready_map_signal, everything_ready_ready_map by done.
    destruct (complete (sg :: seen) x y) eqn:Hc.
    + rewrite battle_eq. eexists. split; [reflexivity|]. split.
      * unfold flag_set, game_after.
        cbn [Game.self Game.heap Game.players Game.players_quiz_and_units_ready].
        rewrite Hp, Hm, ready_map_signal, !id_set_in_game by done. done.
      * cbn [Game.sent]. rewrite !simulations_app, simulations_game_results.
        unfold flag_set, simulations.
        cbn [Game.sent List.filter is_simulation length]. lia.
    + eexists. split; [reflexivity|].
      split; [|unfold flag_set; cbn [Game.sent]; lia].
      unfold flag_set, game_after.
      cbn [Game.self Game.heap Game.players Game.players_quiz_and_units_ready].
      by rewrite Hm, ready_map_signal.
  - eexists. split; [reflexivity|]. split; [|lia].
    unfold game_after. by rewrite ready_map_stray.
Qed.

Lemma deliver_game_after a b x y signals : ∀ seen s,
  game_after a b x y seen s →
  ∃ s', deliver sim signals s = (Ok tt, s')
    ∧ game_after a b x y (rev signals ++ seen) s'
    ∧ simulations (Game.sent s') =
        simulations (Game.sent s) + battles_due x y seen signals.
Proof.
  induction signals as [|sg signals IH]; intros seen s Hs.
  - exists s. cbn. split; [done|]. split; [done|lia].
  - destruct (handle_game_after a b x y seen sg s Hs) as (s1 & Hrun1 & Hs1 & Hn1).
    destruct (IH (sg :: seen) s1 Hs1) as (s2 & Hrun2 & Hs2 & Hn2).
    exists s2. split; [|split].
    + cbn [deliver]. unfold mbind, Game.M_bind. by rewrite Hrun1.
    + cbn [rev]. by rewrite <- app_assoc.
    + cbn [battles_due]. lia.
Qed.

Lemma init_game_after a b h :
  game_after a b (id (obj h a)) (id (obj h b)) []
    (Game.mkSt (Game.__init__ (a, b) h) h []).
Proof. done. Qed.

(** *** The spec-side count *)

Lemma signalled_app l seen z k :
  signalled seen z k = true → signalled (l ++ seen) z k = true.
Proof. unfold signalled. rewrite existsb_app. intros ->. apply orb_true_r. Qed.

Lemma complete_app l seen x y :
  complete seen x y = true → complete (l ++ seen) x y = true.
Proof.
  unfold complete. rewrite !andb_true_iff. intros [[[? ?] ?] ?].
  by rewrite !signalled_app.
Qed.

(** No battle is due as long as a flag is missing. *)
Lemma battles_due_incomplete x y signals : ∀ seen,
  complete (rev signals ++ seen) x y = false → battles_due x y seen signals = 0.
Proof.
  induction signals as [|sg signals IH]; intros seen Hc; [done|].
  cbn [battles_due]. cbn [rev] in Hc. rewrite <- app_assoc in Hc. cbn [app] in Hc.
  rewrite (IH _ Hc).
  destruct (complete (sg :: seen) x y) eqn:Hnow; [|by rewrite andb_false_r].
  by rewrite (complete_app (rev signals)) in Hc.
Qed.

(** Once no flag is missing, a battle is due for every signal of a player. *)
Lemma battles_due_complete x y signals : ∀ seen,
  complete seen x y = true →
  battles_due x y seen signals = length (List.filter (from_player x y) signals).
Proof.
  induction signals as [|sg signals IH]; intros seen Hc; [done|].
  assert (Hc' : complete (sg :: seen) x y = true) by apply (complete_app [sg]), Hc.
  cbn [battles_due List.filter]. rewrite Hc', andb_true_r, (IH _ Hc').
  by destruct (from_player x y sg).
Qed.

(** A call of [save_what_is_ready] that runs the battle runs it once, and
    leaves no flag false. *)
Lemma battle_only_when_everything_ready sid what_is_ready s r s' :
  Game.save_what_is_ready sim sid what_is_ready s = (r, s') →
  simulations (Game.sent s') ≠ simulations (Game.sent s) →
  Game.everything_ready (Game.players_quiz_and_units_ready (Game.self s')) = true
  ∧ simulations (Game.sent s') = S (simulations (Game.sent s)).
Proof.
  rewrite save_what_is_ready_eq. case_bool_decide; [|by intros [= <- <-]].
  destruct (Game.players_quiz_and_units_ready (Game.self s) !! sid)
    as [dictionary|]; [|by intros [= <- <-]].
  rewrite start_game_if_ready_eq.
  destruct (Game.everything_ready _) eqn:Hready; [|by intros [= <- <-]].
  rewrite battle_eq. intros [= <- <-] _. split; [exact Hready|].
  cbn [Game.sent]. rewrite simulations_app, !simulations_cons, simulations_game_results.
  unfold flag_set. cbn [Game.sent is_simulation]. lia.
Qed.

(** C1, as the code has it: a signal whose connection id matches neither
    player leaves the state of the game unchanged; a signal that runs the
    battle runs it once and only with every flag true; and over any sequence
    of signals delivered to a new game [battle] runs once for each signal
    that comes from one of the two players when, counting that signal, both
    kinds have come from both players: never while a flag is missing, and
    again at every signal of a player once none is. *)
Theorem battle_at_each_signal_once_ready :
  (∀ s sid what_is_ready,
     id (first_player s) ≠ sid → id (second_player s) ≠ sid →
     Game.save_what_is_ready sim sid what_is_ready s = (Ok tt, s))
  ∧ (∀ s sid what_is_ready r s',
       Game.save_what_is_ready sim sid what_is_ready s = (r, s') →
       simulations (Game.sent s') ≠ simulations (Game.sent s) →
       Game.everything_ready (Game.players_quiz_and_units_ready (Game.self s')) = true
       ∧ simulations (Game.sent s') = S (simulations (Game.sent s)))
  ∧ (∀ h a b signals,
       ∃ s', deliver sim signals (Game.mkSt (Game.__init__ (a, b) h) h []) = (Ok tt, s')
         ∧ simulations (Game.sent s')
           = battles_due (id (obj h a)) (id (obj h b)) [] signals)
  ∧ (∀ x y signals,
       complete (rev signals) x y = false → battles_due x y [] signals = 0)
  ∧ (∀ x y seen signals,
       complete seen x y = true →
       battles_due x y seen signals = length (List.filter (from_player x y) signals)).
Proof.
  split; [|split; [|split; [|split]]].
  - intros s sid what_is_ready. apply save_what_is_ready_stray.
  - intros s sid what_is_ready r s'. apply battle_only_when_everything_ready.
  - intros h a b signals.
    destruct (deliver_game_after a b _ _ signals [] _ (init_game_after a b h))
      as (s' & Hrun & _ & Hn).
    exists s'. split; [done|]. by rewrite Hn.
  - intros x y signals Hc. apply battles_due_incomplete. by rewrite app_nil_r.
  - intros x y seen signals. apply battles_due_complete.
Qed.

Lemma second_delivery_noop sid what_is_ready s r s1 :
  Game.save_what_is_ready sim sid what_is_ready s = (r, s1) →
  Game.sent s1 = Game.sent s →
  Game.save_what_is_ready sim sid what_is_ready s1 = (r, s1).
Proof.
  rewrite !save_what_is_ready_eq. case_bool_decide as Hsid.
  - destruct (Game.players_quiz_and_units_ready (Game.self s) !! sid)
      as [dictionary|] eqn:Hentry.
    + rewrite start_game_if_ready_eq.
      destruct (Game.everything_ready _) eqn:Hready.
      * rewrite battle_eq. intros [= <- <-]. cbn [Game.sent flag_set].
        intros Hsent. apply (f_equal length) in Hsent.
        rewrite !length_app in Hsent. cbn [length] in Hsent. lia.
      * intros [= <- <-] _.
        change (first_player (flag_set sid what_is_ready dictionary s))
          with (first_player s).
        change (second_player (flag_set sid what_is_ready dictionary s))
          with (second_player s).
        rewrite bool_decide_eq_true_2 by done.
        unfold flag_set at 1. cbn [Game.self Game.players_quiz_and_units_ready].
        rewrite lookup_insert_eq, start_game_if_ready_eq.
        assert (Hsame : flag_set sid what_is_ready (<[what_is_ready:=true]> dictionary)
                          (flag_set sid what_is_ready dictionary s)
                        = flag_set sid what_is_ready dictionary s).
        { unfold flag_set. cbn [Game.self Game.heap Game.sent Game.players
            Game.is_finished Game.players_quiz_and_units_ready].
          by rewrite !insert_insert_eq. }
        by rewrite Hsame, Hready.
    + intros [= <- <-] _. by rewrite bool_decide_eq_true_2, Hentry by done.
  - intros [= <- <-] _. by rewrite bool_decide_eq_false_2 by done.
Qed.

Lemma second_delivery_battle_again sid what_is_ready s r s1 :
  Game.save_what_is_ready sim sid what_is_ready s = (r, s1) →
  Game.sent s1 ≠ Game.sent s →
  simulations (Game.sent (Game.save_what_is_ready sim sid what_is_ready s1).2)
  = S (simulations (Game.sent s1)).
Proof.
  intros Hrun Hsent. rewrite save_what_is_ready_eq in Hrun.
  case_bool_decide as Hsid; [|by injection Hrun as _ <-].
  destruct (Game.players_quiz_and_units_ready (Game.self s) !! sid)
    as [dictionary|] eqn:Hentry; [|by injection Hrun as _ <-].
  rewrite start_game_if_ready_eq in Hrun.
  destruct (Game.everything_ready _) eqn:Hready; [|by injection Hrun as _ <-].
  rewrite battle_eq in Hrun. injection Hrun as _ Hs1.
  assert (Hid0 : id (first_player s1) = id (first_player s)).
  { rewrite <- Hs1. unfold first_player, flag_set.
    cbn [Game.self Game.heap Game.players]. by rewrite !id_set_in_game. }
  assert (Hid1 : id (second_player s1) = id (second_player s)).
  { rewrite <- Hs1. unfold second_player, flag_set.
    cbn [Game.self Game.heap Game.players]. by rewrite !id_set_in_game. }
  assert (Hmap : Game.players_quiz_and_units_ready (Game.self s1)
                 = <[sid := <[what_is_ready := true]> dictionary]>
                     (Game.players_quiz_and_units_ready (Game.self s)))
    by (by rewrite <- Hs1).
  clear Hs1 Hsent.
  rewrite save_what_is_ready_eq, Hid0, Hid1, bool_decide_eq_true_2 by done.
  rewrite Hmap, lookup_insert_eq, start_game_if_ready_eq.
  unfold flag_set at 1. cbn [Game.self Game.players_quiz_and_units_ready].
  rewrite Hmap, !insert_insert_eq.
  unfold flag_set in Hready. cbn [Game.self Game.players_quiz_and_units_ready] in Hready.
  by rewrite Hready, simulations_battle.
Qed.

(** C8, as the code has it: when the delivery of a signal has started no
    battle (it has sent nothing), delivering the same signal again changes
    nothing and sends nothing; when it has started the battle, delivering
    the same signal again runs the battle once more. *)
Theorem second_delivery_is_noop_unless_battle sid what_is_ready s r s1 :
  Game.save_what_is_ready sim sid what_is_ready s = (r, s1) →
  (Game.sent s1 = Game.sent s →
   Game.save_what_is_ready sim sid what_is_ready s1 = (r, s1))
  ∧ (Game.sent s1 ≠ Game.sent s →
     simulations (Game.sent (Game.save_what_is_ready sim sid what_is_ready s1).2)
     = S (simulations (Game.sent s1))).
Proof.
  intros Hrun. split.
  - by apply second_delivery_noop.
  - by apply (second_delivery_battle_again sid what_is_ready s r).
Qed.

(** *** The readiness dictionary over the life of a game *)

(** What a method does to the dictionary: nothing, or one flag set. *)
Lemma invoke_readiness m s :
  let ready := Game.players_quiz_and_units_ready (Game.self s) in
  let ready' := Game.players_quiz_and_units_ready (Game.self (invoke sim m s).2) in
  ready' = ready
  ∨ ∃ sid what_is_ready dictionary,
      ready !! sid = Some dictionary
      ∧ ready' = <[sid := <[what_is_ready := true]> dictionary]> ready.
Proof.
  assert (Hstart : ∀ s0,
    Game.players_quiz_and_units_ready (Game.self (Game.start_game_if_ready sim s0).2)
    = Game.players_quiz_and_units_ready (Game.self s0)).
  { intros s0. rewrite start_game_if_ready_eq.
    destruct (Game.everything_ready _); [by rewrite battle_eq|done]. }
  assert (Hsave : ∀ sid what_is_ready,
    let ready := Game.players_quiz_and_units_ready (Game.self s) in
    let ready' := Game.players_quiz_and_units_ready
                    (Game.self (Game.save_what_is_ready sim sid what_is_ready s).2) in
    ready' = ready
    ∨ ∃ sid what_is_ready dictionary,
        ready !! sid = Some dictionary
        ∧ ready' = <[sid := <[what_is_ready := true]> dictionary]> ready).
  { intros sid what_is_ready. cbv zeta. rewrite save_what_is_ready_eq.
    case_bool_decide; [|by left].
    destruct (Game.players_quiz_and_units_ready (Game.self s) !! sid)
      as [dictionary|] eqn:Hentry; [|by left].
    right. exists sid, what_is_ready, dictionary. split; [done|]. by rewrite Hstart. }
  destruct m; cbn [invoke]; cbv zeta.
  - apply Hsave.
  - apply Hsave.
  - apply Hsave.
  - left. apply Hstart.
  - left. by rewrite battle_eq.
  - left. by rewrite end_game_for_players_eq.
  - left. unfold mbind, Game.M_bind. by rewrite all_players_connected_eq.
  - left. rewrite set_on_game_started_eq.
    destruct (_ && _); [done|by rewrite send_game_results_eq].
  - left. by rewrite send_game_results_eq.
Qed.

Lemma invoke_flags_grow m s :
  flags_grow (Game.players_quiz_and_units_ready (Game.self s))
             (Game.players_quiz_and_units_ready (Game.self (invoke sim m s).2)).
Proof.
  destruct (invoke_readiness m s) as [->|(sid & what & d & Hd & ->)].
  - apply flags_grow_refl.
  - by apply flags_grow_set.
Qed.

(** C9: the readiness dictionary is created with one entry for each
    distinct player id, both flags false, and whatever methods of the game
    are called afterwards, every entry stays and a flag that is true stays
    true. *)
Theorem readiness_created_false_then_only_grows :
  (∀ players h,
     let ready := Game.players_quiz_and_units_ready (Game.__init__ players h) in
     dom ready = {[id (obj h players.1); id (obj h players.2)]}
     ∧ ∀ x dictionary, ready !! x = Some dictionary →
         dom dictionary = {["units"; "quiz"]}
         ∧ dictionary !! "units" = Some false
         ∧ dictionary !! "quiz" = Some false)
  ∧ (∀ ms s,
       flags_grow (Game.players_quiz_and_units_ready (Game.self s))
                  (Game.players_quiz_and_units_ready (Game.self (invoke_all sim ms s)))).
Proof.
  split.
  - intros players h ready. split.
    + unfold ready, Game.__init__. cbn [Game.players_quiz_and_units_ready].
      rewrite !dom_insert_L, dom_empty_L. apply set_eq. intros z.
      rewrite !elem_of_union, !elem_of_singleton, elem_of_empty. tauto.
    + intros x dictionary. unfold ready, Game.__init__.
      cbn [Game.players_quiz_and_units_ready].
      assert (Hnot : dom Game.not_ready = {["units"; "quiz"]}
                     ∧ Game.not_ready !! "units" = Some false
                     ∧ Game.not_ready !! "quiz" = Some false).
      { split; [|done]. unfold Game.not_ready.
        rewrite !dom_insert_L, dom_empty_L. apply set_eq. intros z.
        rewrite !elem_of_union, !elem_of_singleton, elem_of_empty. tauto. }
      rewrite lookup_insert. case_decide; [by intros [= <-]|].
      rewrite lookup_insert. case_decide; [by intros [= <-]|].
      by rewrite lookup_empty.
  - intros ms. induction ms as [|m ms IH]; intros s; [apply flags_grow_refl|].
    cbn [invoke_all foldl]. eapply flags_grow_trans; [apply invoke_flags_grow|].
    apply IH.
Qed.

End GameProperties.

(** *** Examples with Alice and Bob *)

Lemma walkover_result_to_connected_only_witness :
  in_game (first_player (fresh_game bob_left))
  && in_game (second_player (fresh_game bob_left)) = false
  ∧ Game.sent (Game.set_on_game_started (fresh_game bob_left)).2
    = [Emit GAME_RESULT [("message", "Player disconnected, walkover"); ("logs", "")]
         (Some "sid-a")].
Proof.
  assert (H : in_game (first_player (fresh_game bob_left))
              && in_game (second_player (fresh_game bob_left)) = false)
    by reflexivity.
  split; [exact H|].
  destruct (walkover_result_to_connected_only (fresh_game bob_left) H)
    as (s' & new & Hrun & Hsent & Hnew & _).
  rewrite Hrun. cbn [snd]. rewrite Hsent, Hnew. reflexivity.
Defined.

Lemma walkover_frame_witness :
  in_game (first_player (fresh_game bob_left))
  && in_game (second_player (fresh_game bob_left)) = false
  ∧ Game.self (Game.set_on_game_started (fresh_game bob_left)).2
    = Game.self (fresh_game bob_left)
  ∧ Game.heap (Game.set_on_game_started (fresh_game bob_left)).2 = bob_left.
Proof.
  assert (H : in_game (first_player (fresh_game bob_left))
              && in_game (second_player (fresh_game bob_left)) = false)
    by reflexivity.
  split; [exact H|].
  destruct (walkover_frame (fresh_game bob_left) H)
    as (s' & new & Hrun & _ & _ & _ & _ & Hself & _ & _ & Hheap & _).
  rewrite Hrun. cbn [snd]. by rewrite Hself, Hheap.
Defined.

Lemma all_flags_true_runs_battle_witness :
  Game.sent (Game.save_what_is_ready draw_simulation "sid-b" "units" one_flag_missing).2
  = [Emit BATTLE_STARTED [("message", "Battle between alice and bob started!")] None;
     Simulation (mkPlayer "alice" "sid-a" true) (mkPlayer "bob" "sid-b" true) 17;
     Emit GAME_RESULT [("message", "draw"); ("logs", "log")] (Some "sid-a");
     Emit GAME_RESULT [("message", "draw"); ("logs", "log")] (Some "sid-b")].
Proof.
  assert (Hsid : id (first_player one_flag_missing) = "sid-b"
                 ∨ id (second_player one_flag_missing) = "sid-b")
    by (right; reflexivity).
  assert (Hentry : Game.players_quiz_and_units_ready (Game.self one_flag_missing)
                     !! "sid-b" = Some (flags false true))
    by (vm_compute; reflexivity).
  assert (Hready : Game.everything_ready
                     (<["sid-b" := <["units" := true]> (flags false true)]>
                        (Game.players_quiz_and_units_ready (Game.self one_flag_missing)))
                   = true)
    by (vm_compute; reflexivity).
  assert (Hin0 : in_game (first_player one_flag_missing) = true) by reflexivity.
  assert (Hin1 : in_game (second_player one_flag_missing) = true) by reflexivity.
  destruct (all_flags_true_runs_battle draw_simulation "sid-b" "units" (flags false true)
              one_flag_missing Hsid Hentry Hready Hin0 Hin1)
    as (s' & outcome & message & logs & Hrun & Hsim & Hsent & _).
  rewrite Hrun. cbn [snd]. rewrite Hsent. injection Hsim as _ <- <-. reflexivity.
Defined.

Lemma battle_at_each_signal_once_ready_witness :
  Game.save_what_is_ready draw_simulation "sid-c" "units" (fresh_game two_players)
  = (Ok tt, fresh_game two_players).
Proof.
  apply (proj1 (battle_at_each_signal_once_ready draw_simulation)); discriminate.
Defined.

(** C1, as stated, fails: when Bob repeats his last signal, the battle runs
    a second time. *)
Lemma battle_runs_twice :
  simulations
    (Game.sent (deliver draw_simulation (four_signals ++ [UnitsReady "sid-b"])
                  (fresh_game two_players)).2) = 2
  ∧ simulations
      (Game.sent (deliver draw_simulation (four_signals ++ [UnitsReady "sid-b"])
                    (fresh_game two_players)).2) ≠ 1.
Proof. split; [vm_compute; reflexivity | vm_compute; discriminate]. Qed.

Lemma second_delivery_is_noop_unless_battle_witness :
  Game.sent (Game.save_what_is_ready draw_simulation "sid-a" "units"
               (fresh_game two_players)).2
  = Game.sent (fresh_game two_players)
  ∧ Game.save_what_is_ready draw_simulation "sid-a" "units"
      (Game.save_what_is_ready draw_simulation "sid-a" "units" (fresh_game two_players)).2
    = ((Game.save_what_is_ready draw_simulation "sid-a" "units" (fresh_game two_players)).1,
       (Game.save_what_is_ready draw_simulation "sid-a" "units" (fresh_game two_players)).2).
Proof.
  assert (H : Game.sent (Game.save_what_is_ready draw_simulation "sid-a" "units"
                           (fresh_game two_players)).2
              = Game.sent (fresh_game two_players))
    by (vm_compute; reflexivity).
  split; [exact H|].
  exact (proj1 (second_delivery_is_noop_unless_battle draw_simulation "sid-a" "units"
                  (fresh_game two_players) _ _ (surjective_pairing _)) H).
Defined.

(** C8, as stated, fails: the signal that sets the last flag starts the
    battle, and so does the same signal delivered again; the second delivery
    sends [BATTLE_STARTED] and runs the simulator once more. *)
Lemma second_delivery_of_last_signal_runs_battle_again :
  Game.sent
    (handle draw_simulation (UnitsReady "sid-b")
       (handle draw_simulation (UnitsReady "sid-b") one_flag_missing).2).2
  = Game.sent (handle draw_simulation (UnitsReady "sid-b") one_flag_missing).2
    ++ [Emit BATTLE_STARTED [("message", "Battle between alice and bob started!")] None;
        Simulation (mkPlayer "alice" "sid-a" false) (mkPlayer "bob" "sid-b" false) 17]
  ∧ (handle draw_simulation (UnitsReady "sid-b")
       (handle draw_simulation (UnitsReady "sid-b") one_flag_missing).2).2
    ≠ (handle draw_simulation (UnitsReady "sid-b") one_flag_missing).2.
Proof.
  split; [vm_compute; reflexivity|].
  intros Heq. apply (f_equal (λ s, length (Game.sent s))) in Heq.
  vm_compute in Heq. discriminate Heq.
Qed.

Lemma readiness_created_false_then_only_grows_witness :
  dom Game.not_ready = {["units"; "quiz"]}
  ∧ Game.not_ready !! "units" = Some false
  ∧ Game.not_ready !! "quiz" = Some false.
Proof.
  apply (proj2 (proj1 (readiness_created_false_then_only_grows draw_simulation)
                  (0, 1) two_players) "sid-a" Game.not_ready).
  vm_compute. reflexivity.
Defined.

(** ** GameApp: the registry *)

Lemma get_player_by_nick_ext app h h' n :
  (∀ p, nick (obj h' p) = nick (obj h p)) →
  GameApp.get_player_by_nick app h' n = GameApp.get_player_by_nick app h n.
Proof.
  intros Hext. unfold GameApp.get_player_by_nick. f_equal.
  apply list_filter_iff. intros p. by rewrite Hext.
Qed.

Lemma get_player_by_nick_Some app h n p :
  GameApp.get_player_by_nick app h n = Some p →
  p ∈ GameApp.players app ∧ nick (obj h p) = n.
Proof.
  unfold GameApp.get_player_by_nick. intros Hhead.
  apply head_Some_elem_of, list_elem_of_filter in Hhead. tauto.
Qed.

Lemma get_player_by_nick_None app h n p :
  GameApp.get_player_by_nick app h n = None →
  p ∈ GameApp.players app → nick (obj h p) ≠ n.
Proof.
  unfold GameApp.get_player_by_nick. intros Hhead Hp Hn.
  apply head_None in Hhead.
  assert (Hin : p ∈ filter (λ p, nick (obj h p) = n) (GameApp.players app))
    by (by apply list_elem_of_filter).
  rewrite Hhead in Hin. by apply not_elem_of_nil in Hin.
Qed.

(** With distinct nicknames, the entry for a nickname is the only one. *)
Lemma entries_for_unique (f : nat → string) (l : list nat) n p :
  NoDup (f <$> l) → p ∈ l → f p = n → filter (λ q, f q = n) l = [p].
Proof.
  induction l as [|q l IH]; intros Hnd Hp Hn; [by apply not_elem_of_nil in Hp|].
  rewrite fmap_cons in Hnd.
  pose proof (NoDup_cons_1_1 _ _ Hnd) as Hq. apply NoDup_cons_1_2 in Hnd.
  apply elem_of_cons in Hp as [<-|Hp].
  - rewrite filter_cons_True by done. f_equal. subst n.
    destruct (filter (λ q, f q = f p) l) as [|r rest] eqn:Hrest; [done|].
    assert (Hr : r ∈ filter (λ q, f q = f p) l) by (rewrite Hrest; apply list_elem_of_here).
    apply list_elem_of_filter in Hr as [Hfr Hr].
    destruct Hq. rewrite <- Hfr. by apply list_elem_of_fmap_2.
  - rewrite filter_cons_False; [by apply IH|].
    intros Hfq. apply Hq. rewrite Hfq, <- Hn. by apply list_elem_of_fmap_2.
Qed.

Lemma get_player_by_nick_found app h n p :
  registry_ok app h → p ∈ GameApp.players app → nick (obj h p) = n →
  GameApp.get_player_by_nick app h n = Some p.
Proof.
  intros [Hnd _] Hp Hn. unfold GameApp.get_player_by_nick.
  by rewrite (entries_for_unique (λ q, nick (obj h q)) _ n p).
Qed.

Lemma registry_ok_same_nicks app app' h h' :
  GameApp.players app' = GameApp.players app →
  (∀ p, nick (obj h' p) = nick (obj h p)) → top h' = top h →
  registry_ok app h → registry_ok app' h'.
Proof.
  intros Hplayers Hnick Htop [Hnd Hlt]. unfold registry_ok. rewrite Hplayers, Htop.
  split; [|done].
  by rewrite (list_fmap_ext _ (λ p, nick (obj h p)) _ (λ _ p _, Hnick p)).
Qed.

Lemma add_player_registry_ok n i app h :
  registry_ok app h →
  registry_ok (GameApp.add_player n i app h).1.2 (GameApp.add_player n i app h).2
  ∧ (GameApp.add_player n i app h).1.1 ∈ GameApp.players (GameApp.add_player n i app h).1.2
  ∧ nick (obj (GameApp.add_player n i app h).2 (GameApp.add_player n i app h).1.1) = n
  ∧ id (obj (GameApp.add_player n i app h).2 (GameApp.add_player n i app h).1.1) = i.
Proof.
  intros Hok. unfold GameApp.add_player.
  destruct (GameApp.get_player_by_nick app h n) as [p|] eqn:Hget; cbn [fst snd alloc].
  - destruct (get_player_by_nick_Some _ _ _ _ Hget) as [Hp Hn].
    unfold Player.reconnect. rewrite nick_set_id, id_set_id_eq. split_and!; try done.
    apply (registry_ok_same_nicks app app h); [done| |done|done].
    intros q. apply nick_set_id.
  - destruct Hok as [Hnd Hlt]. cbn [GameApp.players obj top].
    rewrite fn_lookup_insert. unfold Player.__init__. cbn [nick id].
    split_and!; try done; [|apply elem_of_app; right; apply list_elem_of_singleton; done].
    assert (Hold : ∀ q, q ∈ GameApp.players app →
                     nick (<[top h := mkPlayer n i false]> (obj h) q) = nick (obj h q)).
    { intros q Hq. rewrite fn_lookup_insert_ne; [done|].
      rewrite Forall_forall in Hlt. specialize (Hlt q Hq). lia. }
    split.
    + cbn [GameApp.players obj]. rewrite fmap_app. cbn [fmap list_fmap].
      rewrite fn_lookup_insert. cbn [nick].
      rewrite (list_fmap_ext _ (λ p, nick (obj h p)) (GameApp.players app)).
      * apply NoDup_app. split; [done|]. split; [|apply NoDup_singleton].
        intros m Hm ->%list_elem_of_singleton.
        apply list_elem_of_fmap in Hm as (q & Hq1 & Hq2).
        by apply (get_player_by_nick_None _ _ _ q Hget).
      * intros k q Hkq. apply Hold. by eapply list_elem_of_lookup_2.
    + cbn [top]. apply Forall_app. split.
      * eapply Forall_impl; [exact Hlt|]. cbn. intros; lia.
      * apply Forall_singleton. lia.
Qed.

Lemma add_player_existing n i app h p :
  registry_ok app h → p ∈ GameApp.players app → nick (obj h p) = n →
  GameApp.add_player n i app h = (p, app, set_id p i h).
Proof.
  intros Hok Hp Hn. unfold GameApp.add_player.
  by rewrite (get_player_by_nick_found app h n p).
Qed.

Lemma step_registry_ok st c :
  registry_ok st.1 st.2 → registry_ok (GameApp.step st c).1 (GameApp.step st c).2.
Proof.
  destruct st as [app h]. cbn [fst snd]. intros Hok. destruct c as [n i|p|rnd].
  - cbn [GameApp.step fst snd].
    destruct (add_player_registry_ok n i app h Hok) as [Hok' _].
    by destruct (GameApp.add_player n i app h) as [[r app'] h'].
  - cbn [GameApp.step GameApp.disconnect_player fst snd].
    apply (registry_ok_same_nicks app _ h); [done| |done|done].
    intros q. apply nick_set_in_game.
  - cbn [GameApp.step fst snd]. destruct (GameApp.is_waiting_room_full app); [|done].
    unfold WaitingRoom.draw_two_players_to_game.
    destruct (sample2 _ rnd) as [[a b]|e]; cbn [fst snd WaitingRoom.take].
    + apply (registry_ok_same_nicks app _ h); [done| |done|done].
      intros q. by rewrite !nick_set_in_game.
    + by destruct app.
Qed.

Lemma run_registry_ok calls : ∀ st,
  registry_ok st.1 st.2 →
  registry_ok (GameApp.run calls st).1 (GameApp.run calls st).2.
Proof.
  induction calls as [|c calls IH]; intros st Hok; [done|].
  cbn [GameApp.run foldl]. apply IH. by apply step_registry_ok.
Qed.

Lemma init_registry_ok h : registry_ok GameApp.__init__ h.
Proof. split; [apply NoDup_nil_2 | apply Forall_nil_2]. Qed.

(** C7: whatever calls the application has served, two calls of [add_player]
    with the same nickname return the same player object, which then carries
    the connection id of the second call, and the registry has exactly one
    entry with that nickname. *)
Theorem add_player_twice_same_player calls h0 n id1 id2 :
  let st := GameApp.run calls (GameApp.__init__, h0) in
  let first := GameApp.add_player n id1 st.1 st.2 in
  let second := GameApp.add_player n id2 first.1.2 first.2 in
  second.1.1 = first.1.1
  ∧ id (obj second.2 second.1.1) = id2
  ∧ nick (obj second.2 second.1.1) = n
  ∧ entries_for n second.1.2 second.2 = [second.1.1]
  ∧ GameApp.get_player_by_nick second.1.2 second.2 n = Some second.1.1.
Proof.
  intros st first second.
  assert (Hok : registry_ok st.1 st.2) by apply run_registry_ok, init_registry_ok.
  destruct (add_player_registry_ok n id1 st.1 st.2 Hok) as (Hok1 & Hin1 & Hnick1 & _).
  fold first in Hok1, Hin1, Hnick1.
  assert (Hsecond : second = (first.1.1, first.1.2, set_id first.1.1 id2 first.2))
    by (by apply add_player_existing).
  destruct (add_player_registry_ok n id2 first.1.2 first.2 Hok1)
    as (Hok2 & Hin2 & Hnick2 & Hid2).
  fold second in Hok2, Hin2, Hnick2, Hid2.
  split_and!; [by rewrite Hsecond|done|done| |].
  - unfold entries_for. destruct Hok2 as [Hnd _].
    by apply (entries_for_unique (λ q, nick (obj second.2 q))).
  - by apply get_player_by_nick_found.
Qed.

(** * Further properties *)

(** ** WaitingRoom: join, leave and draw together *)

Lemma room_eq (room room' : WaitingRoom.t) :
  WaitingRoom.players room = WaitingRoom.players room' →
  WaitingRoom.capacity room = WaitingRoom.capacity room' →
  room = room'.
Proof. destruct room, room'. cbn. by intros -> ->. Qed.

(** X1: a player who was not waiting and joins, then leaves, leaves the room
    as it was, whether or not the room had a place. *)
Theorem leave_after_join_restores (room : WaitingRoom.t) (p : nat) :
  p ∉ WaitingRoom.players room →
  WaitingRoom.leave (WaitingRoom.join room p) p = room.
Proof.
  intros Hp. unfold WaitingRoom.join.
  destruct (negb (WaitingRoom.is_full room)); cbn [andb].
  - rewrite bool_decide_eq_true_2 by done. unfold WaitingRoom.leave.
    cbn [WaitingRoom.players WaitingRoom.capacity].
    rewrite bool_decide_eq_true_2
      by (apply elem_of_union; left; by apply elem_of_singleton).
    apply room_eq; [|done]. cbn [WaitingRoom.players]. apply set_eq. intros x.
    rewrite elem_of_difference, elem_of_union, elem_of_singleton.
    split; [tauto|]. intros Hx. split; [tauto|]. by intros ->.
  - unfold WaitingRoom.leave. by rewrite bool_decide_eq_false_2.
Qed.

Lemma leave_after_join_restores_witness :
  (7 ∉ WaitingRoom.players two_waiting)
  ∧ WaitingRoom.leave (WaitingRoom.join two_waiting 7) 7 = two_waiting.
Proof.
  assert (H : 7 ∉ WaitingRoom.players two_waiting).
  { cbn. rewrite elem_of_union, !elem_of_singleton. intros [?|?]; discriminate. }
  split; [exact H|]. exact (leave_after_join_restores _ 7 H).
Defined.

Lemma size_without (X : gset nat) (p : nat) : p ∈ X → size X = S (size (X ∖ {[p]})).
Proof.
  intros Hp. rewrite size_difference by (by apply singleton_subseteq_l).
  rewrite size_singleton.
  assert (size X ≠ 0); [|lia].
  intros Hz. apply size_empty_inv in Hz. apply (not_elem_of_empty (C := gset nat) p).
  by rewrite <- Hz.
Qed.

(** X2: in a room within its capacity, a waiting player who leaves and joins
    again is waiting as before. *)
Theorem join_after_leave_restores (room : WaitingRoom.t) (p : nat) :
  p ∈ WaitingRoom.players room →
  (Z.of_nat (size (WaitingRoom.players room)) ≤ WaitingRoom.capacity room)%Z →
  WaitingRoom.join (WaitingRoom.leave room p) p = room.
Proof.
  intros Hp Hle. unfold WaitingRoom.leave. rewrite bool_decide_eq_true_2 by done.
  unfold WaitingRoom.join, WaitingRoom.is_full.
  cbn [WaitingRoom.players WaitingRoom.capacity].
  pose proof (size_without _ _ Hp) as Hsize.
  rewrite bool_decide_eq_false_2 by lia. cbn [negb andb].
  rewrite bool_decide_eq_true_2
    by (rewrite elem_of_difference, elem_of_singleton; tauto).
  apply room_eq; [|done]. cbn [WaitingRoom.players]. apply set_eq. intros x.
  rewrite elem_of_union, elem_of_difference, elem_of_singleton.
  destruct (decide (x = p)) as [->|]; tauto.
Qed.

Lemma join_after_leave_restores_witness :
  3 ∈ WaitingRoom.players two_waiting
  ∧ (Z.of_nat (size (WaitingRoom.players two_waiting))
     ≤ WaitingRoom.capacity two_waiting)%Z
  ∧ WaitingRoom.join (WaitingRoom.leave two_waiting 3) 3 = two_waiting.
Proof.
  assert (H1 : 3 ∈ WaitingRoom.players two_waiting)
    by (cbn; apply elem_of_union; left; by apply elem_of_singleton).
  assert (H2 : (Z.of_nat (size (WaitingRoom.players two_waiting))
                ≤ WaitingRoom.capacity two_waiting)%Z)
    by (vm_compute; discriminate).
  split; [exact H1|]. split; [exact H2|]. exact (join_after_leave_restores _ 3 H1 H2).
Defined.

(** X3: joining twice is joining once. *)
Theorem join_idempotent (room : WaitingRoom.t) (p : nat) :
  WaitingRoom.join (WaitingRoom.join room p) p = WaitingRoom.join room p.
Proof.
  unfold WaitingRoom.join at 2.
  destruct (negb (WaitingRoom.is_full room) && bool_decide (p ∉ WaitingRoom.players room))
    eqn:Hjoin.
  - unfold WaitingRoom.join. cbn [WaitingRoom.players].
    rewrite (bool_decide_eq_false_2 (p ∉ {[p]} ∪ WaitingRoom.players room)).
    + by rewrite andb_false_r, Hjoin.
    + intros Hn. apply Hn, elem_of_union. left. by apply elem_of_singleton.
  - unfold WaitingRoom.join. by rewrite Hjoin.
Qed.

Lemma leave_players_subseteq room p :
  WaitingRoom.players (WaitingRoom.leave room p) ⊆ WaitingRoom.players room
  ∧ WaitingRoom.capacity (WaitingRoom.leave room p) = WaitingRoom.capacity room.
Proof.
  unfold WaitingRoom.leave. case_bool_decide; cbn; [|done].
  split; [|done]. intros x. rewrite elem_of_difference. tauto.
Qed.

Lemma draw_players_subseteq rnd room h :
  WaitingRoom.players (WaitingRoom.draw_two_players_to_game rnd room h).1.2
    ⊆ WaitingRoom.players room
  ∧ WaitingRoom.capacity (WaitingRoom.draw_two_players_to_game rnd room h).1.2
    = WaitingRoom.capacity room.
Proof.
  unfold WaitingRoom.draw_two_players_to_game.
  destruct (sample2 _ rnd) as [[a b]|e]; cbn; [|done].
  split; [|done]. intros x. rewrite !elem_of_difference. tauto.
Qed.

Lemma room_step_within_capacity st c :
  (Z.of_nat (size (WaitingRoom.players st.1)) ≤ WaitingRoom.capacity st.1)%Z →
  (Z.of_nat (size (WaitingRoom.players (room_step st c).1))
   ≤ WaitingRoom.capacity (room_step st c).1)%Z
  ∧ WaitingRoom.capacity (room_step st c).1 = WaitingRoom.capacity st.1.
Proof.
  destruct st as [room h]. cbn [fst]. intros Hle. destruct c as [p|p|rnd]; cbn [room_step fst snd].
  - split; [by apply join_within_capacity | apply join_capacity].
  - destruct (leave_players_subseteq room p) as [Hsub Hcap].
    apply subseteq_size in Hsub. split; [lia|done].
  - destruct (draw_players_subseteq rnd room h) as [Hsub Hcap].
    destruct (WaitingRoom.draw_two_players_to_game rnd room h) as [[r room'] h'].
    cbn [fst snd] in *. apply subseteq_size in Hsub. split; [lia|done].
Qed.

Lemma room_run_within_capacity calls : ∀ st,
  (Z.of_nat (size (WaitingRoom.players st.1)) ≤ WaitingRoom.capacity st.1)%Z →
  (Z.of_nat (size (WaitingRoom.players (room_run calls st).1))
   ≤ WaitingRoom.capacity (room_run calls st).1)%Z
  ∧ WaitingRoom.capacity (room_run calls st).1 = WaitingRoom.capacity st.1.
Proof.
  induction calls as [|c calls IH]; intros st Hle; [done|].
  change (room_run (c :: calls) st) with (room_run calls (room_step st c)).
  destruct (room_step_within_capacity st c Hle) as [H1 H2].
  destruct (IH _ H1) as [H3 H4]. split; [done|]. by rewrite H4.
Qed.

(** X4: whatever sequence of [join], [leave] and [draw_two_players_to_game]
    calls a waiting room within its capacity serves, failed draws included,
    it stays within its capacity, and the capacity stays what it was. *)
Theorem room_calls_within_capacity (calls : list room_call) (room : WaitingRoom.t)
    (h : Heap) :
  (Z.of_nat (size (WaitingRoom.players room)) ≤ WaitingRoom.capacity room)%Z →
  (Z.of_nat (size (WaitingRoom.players (room_run calls (room, h)).1))
   ≤ WaitingRoom.capacity (room_run calls (room, h)).1)%Z
  ∧ WaitingRoom.capacity (room_run calls (room, h)).1 = WaitingRoom.capacity room.
Proof. intros Hle. by apply (room_run_within_capacity calls (room, h)). Qed.

Lemma room_calls_within_capacity_witness :
  (Z.of_nat (size (WaitingRoom.players two_waiting)) ≤ WaitingRoom.capacity two_waiting)%Z
  ∧ (Z.of_nat (size (WaitingRoom.players
        (room_run some_room_calls (two_waiting, empty_heap)).1)) ≤ 2)%Z.
Proof.
  assert (H : (Z.of_nat (size (WaitingRoom.players two_waiting))
               ≤ WaitingRoom.capacity two_waiting)%Z)
    by (vm_compute; discriminate).
  split; [exact H|].
  destruct (room_calls_within_capacity some_room_calls two_waiting empty_heap H)
    as [Hle Hcap].
  rewrite Hcap in Hle. exact Hle.
Defined.

(** X5: a draw that succeeds removes the two drawn players from the waiting
    room and nobody else, keeps the capacity, and changes no player object
    but the two drawn, of which it keeps the nickname and the connection
    id. *)
Theorem draw_changes_only_the_pair rnd (room room' : WaitingRoom.t) (h h' : Heap) a b :
  WaitingRoom.draw_two_players_to_game rnd room h = (Ok (a, b), room', h') →
  WaitingRoom.players room' = WaitingRoom.players room ∖ {[a; b]}
  ∧ size (WaitingRoom.players room) = size (WaitingRoom.players room') + 2
  ∧ WaitingRoom.capacity room' = WaitingRoom.capacity room
  ∧ top h' = top h
  ∧ (∀ r, nick (obj h' r) = nick (obj h r) ∧ id (obj h' r) = id (obj h r))
  ∧ (∀ r, r ≠ a → r ≠ b → obj h' r = obj h r).
Proof.
  unfold WaitingRoom.draw_two_players_to_game.
  destruct (sample2 _ rnd) as [[a' b']|e] eqn:Hs; [|discriminate].
  cbn [WaitingRoom.take fst snd]. intros [= -> -> <- <-].
  destruct (sample2_distinct _ _ _ _ (NoDup_elements _) Hs) as (Ha & Hb & Hab).
  rewrite elem_of_elements in Ha, Hb. cbn [WaitingRoom.players WaitingRoom.capacity].
  split_and!; try done.
  - apply set_eq. intros x.
    rewrite !elem_of_difference, elem_of_union, !elem_of_singleton. tauto.
  - rewrite (size_without _ a Ha).
    rewrite (size_without (WaitingRoom.players room ∖ {[a]}) b); [lia|].
    rewrite elem_of_difference, elem_of_singleton. split; [done|congruence].
  - intros r. by rewrite !nick_set_in_game, !id_set_in_game.
  - intros r Hra Hrb. by rewrite !obj_set_in_game_ne.
Qed.

Lemma draw_changes_only_the_pair_witness :
  ∃ a b room' h',
    WaitingRoom.draw_two_players_to_game (1, 0) two_waiting empty_heap
      = (Ok (a, b), room', h')
    ∧ WaitingRoom.players room' = WaitingRoom.players two_waiting ∖ {[a; b]}.
Proof.
  destruct (WaitingRoom.draw_two_players_to_game (1, 0) two_waiting empty_heap)
    as [[[[a b]|e] room'] h'] eqn:Hdraw.
  - exists a, b, room', h'. split; [reflexivity|].
    exact (proj1 (draw_changes_only_the_pair (1, 0) two_waiting room' empty_heap h' a b Hdraw)).
  - apply (f_equal (λ x, x.1.1)) in Hdraw. vm_compute in Hdraw. discriminate Hdraw.
Defined.

(** X6: on a room that is full, as [start_games] finds it before it draws,
    the draw succeeds when the capacity is at least 2, leaving two members
    fewer than the capacity, and raises [ValueError] when the capacity is
    0 or 1. *)
Theorem draw_from_full_room rnd (room : WaitingRoom.t) (h : Heap) :
  WaitingRoom.is_full room = true →
  ((2 ≤ WaitingRoom.capacity room)%Z →
   ∃ a b room' h',
     WaitingRoom.draw_two_players_to_game rnd room h = (Ok (a, b), room', h')
     ∧ Z.of_nat (size (WaitingRoom.players room')) = (WaitingRoom.capacity room - 2)%Z)
  ∧ ((WaitingRoom.capacity room < 2)%Z →
     WaitingRoom.draw_two_players_to_game rnd room h = (Raise ValueError, room, h)).
Proof.
  unfold WaitingRoom.is_full. intros Hfull%bool_decide_eq_true. split.
  - intros Hcap.
    destruct (sample2_some (elements (WaitingRoom.players room)) rnd) as (a & b & Hs).
    { change (2 ≤ size (WaitingRoom.players room)). lia. }
    destruct (sample2_distinct _ _ _ _ (NoDup_elements _) Hs) as (Ha & Hb & Hab).
    rewrite elem_of_elements in Ha, Hb.
    exists a, b. eexists _, _. split; [by apply draw_unfold|].
    cbn [WaitingRoom.players].
    pose proof (size_without _ a Ha) as H1.
    pose proof (size_without (WaitingRoom.players room ∖ {[a]}) b) as H2.
    rewrite H2 in H1; [lia|].
    rewrite elem_of_difference, elem_of_singleton. split; [done|congruence].
  - intros Hcap. unfold WaitingRoom.draw_two_players_to_game.
    rewrite sample2_small; [done|].
    change (size (WaitingRoom.players room) < 2). lia.
Qed.

Lemma draw_from_full_room_witness :
  WaitingRoom.is_full two_waiting = true
  ∧ ∃ a b room' h',
      WaitingRoom.draw_two_players_to_game (1, 0) two_waiting empty_heap
        = (Ok (a, b), room', h')
      ∧ Z.of_nat (size (WaitingRoom.players room')) = (WaitingRoom.capacity two_waiting - 2)%Z.
Proof.
  assert (H : WaitingRoom.is_full two_waiting = true) by (vm_compute; reflexivity).
  split; [exact H|].
  apply (proj1 (draw_from_full_room (1, 0) two_waiting empty_heap H)).
  vm_compute. discriminate.
Defined.

(** ** Game: the other branches *)

Section GameFurther.

Context {Outcome : Type}.
Variable sim : Player → Player → Z → Outcome * string * string.

Implicit Types s : Game.St.

(** X7: when both players are connected, [set_on_game_started] sends
    [GAME_STARTED] to the first player's connection id, then to the second
    player's, and changes neither the game nor any player. *)
Theorem game_started_to_both s :
  in_game (first_player s) = true →
  in_game (second_player s) = true →
  Game.set_on_game_started s =
    (Ok tt,
     Game.mkSt (Game.self s) (Game.heap s)
       (Game.sent s
        ++ [Emit GAME_STARTED [("message", "game started")] (Some (id (first_player s)));
            Emit GAME_STARTED [("message", "game started")] (Some (id (second_player s)))])).
Proof. intros H0 H1. by rewrite set_on_game_started_eq, H0, H1. Qed.

(** X8: [battle], called in whatever state, sends [BATTLE_STARTED] to
    everybody, runs the simulator once with seed 17 on the two players,
    sends [GAME_RESULT] to those players and only those who are in game,
    sets [is_finished], and leaves the players of the game, the readiness
    dictionary and every player's nickname and connection id as they were. *)
Theorem battle_whatever_the_connections s :
  ∃ s',
    Game.battle sim s = (Ok tt, s')
    ∧ Game.sent s' =
        Game.sent s
        ++ [Emit BATTLE_STARTED
              [("message",
                "Battle between " +:+ nick (first_player s) +:+ " and "
                +:+ nick (second_player s) +:+ " started!")]
              None;
            Simulation (first_player s) (second_player s) 17]
        ++ map (λ p, Emit GAME_RESULT
                       [("message", (sim (first_player s) (second_player s) 17).1.2);
                        ("logs", (sim (first_player s) (second_player s) 17).2)]
                       (Some (id p)))
               (List.filter in_game [first_player s; second_player s])
    ∧ Game.is_finished (Game.self s') = true
    ∧ Game.players (Game.self s') = Game.players (Game.self s)
    ∧ Game.players_quiz_and_units_ready (Game.self s')
      = Game.players_quiz_and_units_ready (Game.self s)
    ∧ ∀ r, nick (obj (Game.heap s') r) = nick (obj (Game.heap s) r)
           ∧ id (obj (Game.heap s') r) = id (obj (Game.heap s) r).
Proof.
  rewrite battle_eq. eexists. split; [reflexivity|]. cbn [Game.sent Game.self Game.heap
    Game.is_finished Game.players Game.players_quiz_and_units_ready].
  split_and!; try done. intros r.
  by rewrite !nick_set_in_game, !id_set_in_game.
Qed.

(** *** A connection id that changed *)

Lemma not_everything_ready (m : gmap string (gmap string bool)) k d f :
  m !! k = Some d → d !! f = Some false → Game.everything_ready m = false.
Proof.
  intros Hk Hf. apply not_true_is_false. intros Hall.
  rewrite everything_ready_spec in Hall. specialize (Hall k d Hk).
  rewrite all_true_spec in Hall. by specialize (Hall f false Hf).
Qed.

Lemma handle_stale_entry k d f sg s :
  Game.players_quiz_and_units_ready (Game.self s) !! k = Some d →
  d !! f = Some false →
  id (first_player s) ≠ k → id (second_player s) ≠ k →
  let s' := (handle sim sg s).2 in
  Game.players_quiz_and_units_ready (Game.self s') !! k = Some d
  ∧ Game.heap s' = Game.heap s
  ∧ Game.sent s' = Game.sent s
  ∧ Game.players (Game.self s') = Game.players (Game.self s)
  ∧ Game.is_finished (Game.self s') = Game.is_finished (Game.self s).
Proof.
  intros Hk Hf H0 H1.
  assert (Hh : handle sim sg = Game.save_what_is_ready sim (sender sg) (kind sg))
    by (by destruct sg).
  cbv zeta. rewrite Hh, save_what_is_ready_eq. case_bool_decide as Hsid; [|done].
  destruct (Game.players_quiz_and_units_ready (Game.self s) !! sender sg)
    as [dictionary|] eqn:Hentry; [|done].
  assert (Hne : sender sg ≠ k) by (destruct Hsid; congruence).
  assert (Hk' : Game.players_quiz_and_units_ready
                  (Game.self (flag_set (sender sg) (kind sg) dictionary s)) !! k = Some d).
  { unfold flag_set. cbn [Game.self Game.players_quiz_and_units_ready].
    by rewrite lookup_insert_ne. }
  rewrite start_game_if_ready_eq, (not_everything_ready _ k d f Hk' Hf). by cbn [snd].
Qed.

(** X9: when the readiness dictionary has an entry with a flag still false
    under a key that is the connection id of neither player (the entry of a
    player whose connection id has changed since the game was created), no
    sequence of signals starts the battle: nothing is sent, the game is not
    finished by it and no player is changed. *)
Theorem stale_entry_blocks_battle k d f signals : ∀ s,
  Game.players_quiz_and_units_ready (Game.self s) !! k = Some d →
  d !! f = Some false →
  id (first_player s) ≠ k → id (second_player s) ≠ k →
  Game.sent (deliver_all sim signals s) = Game.sent s
  ∧ Game.heap (deliver_all sim signals s) = Game.heap s
  ∧ Game.is_finished (Game.self (deliver_all sim signals s))
    = Game.is_finished (Game.self s).
Proof.
  induction signals as [|sg signals IH]; intros s Hk Hf H0 H1; [done|].
  change (deliver_all sim (sg :: signals) s)
    with (deliver_all sim signals (handle sim sg s).2).
  destruct (handle_stale_entry k d f sg s Hk Hf H0 H1) as (Hk' & Hh & Hs & Hp & Hfin).
  destruct (IH (handle sim sg s).2) as (IH1 & IH2 & IH3); [done|done| | |].
  - unfold first_player. by rewrite Hh, Hp.
  - unfold second_player. by rewrite Hh, Hp.
  - split_and!; congruence.
Qed.

(** X10: a signal under a connection id that one of the players has now, but
    neither had when the game was created, raises [KeyError] and changes
    nothing. *)
Theorem signal_under_new_id_raises_KeyError a b h h' out sid what_is_ready :
  id (obj h' a) = sid ∨ id (obj h' b) = sid →
  sid ≠ id (obj h a) → sid ≠ id (obj h b) →
  Game.save_what_is_ready sim sid what_is_ready
    (Game.mkSt (Game.__init__ (a, b) h) h' out)
  = (Raise KeyError, Game.mkSt (Game.__init__ (a, b) h) h' out).
Proof.
  intros Hsid Ha Hb. rewrite save_what_is_ready_eq.
  rewrite bool_decide_eq_true_2 by done.
  cbn [Game.self Game.__init__ Game.players_quiz_and_units_ready fst snd].
  by rewrite !lookup_insert_ne, lookup_empty by done.
Qed.

End GameFurther.

(** *** The order of the signals *)

Lemma signalled_spec seen z k :
  signalled seen z k = true ↔ (z, k) ∈ flag_of <$> seen.
Proof.
  unfold signalled. rewrite existsb_exists, list_elem_of_fmap. split.
  - intros (sg & Hin & Hb). apply andb_true_iff in Hb as [H1 H2].
    apply bool_decide_eq_true in H1, H2. exists sg.
    split; [unfold flag_of; congruence | by apply list_elem_of_In].
  - intros (sg & Heq & Hin). injection Heq as -> ->. exists sg.
    split; [by apply list_elem_of_In|]. by rewrite !bool_decide_eq_true_2.
Qed.

Lemma complete_spec seen x y :
  complete seen x y = true ↔ ∀ p, p ∈ four_flags x y → p ∈ flag_of <$> seen.
Proof.
  unfold complete, four_flags. rewrite !andb_true_iff, !signalled_spec. split.
  - intros [[[H1 H2] H3] H4] p Hp.
    repeat (apply elem_of_cons in Hp as [->|Hp]; [done|]).
    by apply not_elem_of_nil in Hp.
  - intros Hall. split_and!; apply Hall; repeat constructor.
Qed.

Lemma battles_due_app x y l1 : ∀ seen l2,
  battles_due x y seen (l1 ++ l2)
  = battles_due x y seen l1 + battles_due x y (rev l1 ++ seen) l2.
Proof.
  induction l1 as [|sg l1 IH]; intros seen l2; [done|].
  cbn [app battles_due rev]. rewrite IH, <- app_assoc. cbn [app]. lia.
Qed.

Lemma four_flags_NoDup x y : x ≠ y → NoDup (four_flags x y).
Proof.
  intros Hxy. unfold four_flags.
  repeat (apply NoDup_cons; split;
          [rewrite ?elem_of_cons, elem_of_nil; intros H;
           repeat (destruct H as [H|H]); congruence|]).
  apply NoDup_nil_2.
Qed.

(** Fewer than four signals cannot have set the four flags of two players
    with different connection ids. *)
Lemma incomplete_below_four x y seen :
  x ≠ y → length seen < 4 → complete seen x y = false.
Proof.
  intros Hxy Hlen. apply not_true_is_false. rewrite complete_spec. intros Hall.
  assert (Hsub : four_flags x y ⊆+ flag_of <$> seen)
    by (apply NoDup_submseteq; [by apply four_flags_NoDup|done]).
  apply submseteq_length in Hsub. rewrite length_fmap in Hsub. cbn in Hsub. lia.
Qed.

Section GameOrders.

Context {Outcome : Type}.
Variable sim : Player → Player → Z → Outcome * string * string.

(** X11: when the two players of a new game have different connection ids
    and each sends [UNITS_READY] and [SCORE] once, in whatever order the
    four signals arrive, no battle runs during the first three signals and
    exactly one has run after the fourth. *)
Theorem four_signals_in_any_order h a b data data' signals n :
  id (obj h a) ≠ id (obj h b) →
  signals ≡ₚ [UnitsReady (id (obj h a)); Score (id (obj h a)) data;
              UnitsReady (id (obj h b)); Score (id (obj h b)) data'] →
  ∃ s',
    deliver sim (take n signals) (Game.mkSt (Game.__init__ (a, b) h) h []) = (Ok tt, s')
    ∧ simulations (Game.sent s') = if decide (n < 4) then 0 else 1.
Proof.
  intros Hxy Hperm. set (x := id (obj h a)) in *. set (y := id (obj h b)) in *.
  destruct (deliver_game_after sim a b x y (take n signals) [] _ (init_game_after a b h))
    as (s' & Hrun & _ & Hn).
  exists s'. split; [exact Hrun|]. rewrite Hn. cbn [Game.sent simulations List.filter length].
  pose proof (Permutation_length Hperm) as Hlen. cbn [length] in Hlen.
  case_decide as Hlt.
  - apply battles_due_incomplete. rewrite app_nil_r.
    apply incomplete_below_four; [done|]. rewrite length_rev, length_take. lia.
  - rewrite take_ge by lia.
    rewrite <- (take_drop 3 signals), battles_due_app.
    rewrite battles_due_incomplete.
    2:{ rewrite app_nil_r. apply incomplete_below_four; [done|].
        rewrite length_rev, length_take. lia. }
    destruct (drop 3 signals) as [|sg [|sg' rest]] eqn:Hdrop.
    + apply (f_equal length) in Hdrop. rewrite length_drop in Hdrop. cbn in Hdrop. lia.
    + cbn [battles_due]. rewrite app_nil_r.
      assert (Hsig : signals = take 3 signals ++ [sg])
        by (by rewrite <- Hdrop, take_drop).
      assert (Hfrom : from_player x y sg = true).
      { assert (Hin : sg ∈ signals) by (rewrite Hsig; apply elem_of_app; right; constructor).
        rewrite Hperm in Hin. unfold from_player. apply bool_decide_eq_true.
        repeat (apply elem_of_cons in Hin as [->|Hin]; [cbn; tauto|]).
        by apply not_elem_of_nil in Hin. }
      assert (Hc : complete (sg :: rev (take 3 signals)) x y = true).
      { apply complete_spec. intros p Hp.
        assert (Hrev : sg :: rev (take 3 signals) ≡ₚ signals).
        { rewrite Hsig at 2. rewrite <- (Permutation_rev (take 3 signals)).
          apply Permutation_cons_append. }
        by rewrite Hrev, Hperm. }
      by rewrite Hfrom, Hc.
    + apply (f_equal length) in Hdrop. rewrite length_drop in Hdrop. cbn in Hdrop. lia.
Qed.

(** X12: when the two players of a new game have the same connection id,
    the readiness dictionary has a single entry, and one [UNITS_READY] and
    one [SCORE] under that id, in either order, start the battle. *)
Theorem shared_connection_id_two_signals h a b data :
  id (obj h a) = id (obj h b) →
  ∃ s1 s2,
    deliver sim [UnitsReady (id (obj h a)); Score (id (obj h a)) data]
      (Game.mkSt (Game.__init__ (a, b) h) h []) = (Ok tt, s1)
    ∧ simulations (Game.sent s1) = 1
    ∧ deliver sim [Score (id (obj h a)) data; UnitsReady (id (obj h a))]
        (Game.mkSt (Game.__init__ (a, b) h) h []) = (Ok tt, s2)
    ∧ simulations (Game.sent s2) = 1.
Proof.
  intros Hxy. set (x := id (obj h a)) in *.
  destruct (deliver_game_after sim a b x (id (obj h b)) [UnitsReady x; Score x data] [] _
              (init_game_after a b h)) as (s1 & Hrun1 & _ & Hn1).
  destruct (deliver_game_after sim a b x (id (obj h b)) [Score x data; UnitsReady x] [] _
              (init_game_after a b h)) as (s2 & Hrun2 & _ & Hn2).
  exists s1, s2. rewrite Hn1, Hn2, <- Hxy.
  split_and!; [done| |done|];
    cbn [Game.sent simulations List.filter length battles_due];
    unfold from_player, complete, signalled; cbn [existsb sender kind];
    rewrite !(bool_decide_eq_true_2 (x = x)) by done;
    rewrite !(bool_decide_eq_true_2 (x = x ∨ x = x)) by tauto;
    reflexivity.
Qed.

End GameOrders.

(** *** Examples for the other branches *)

Lemma game_started_to_both_witness :
  Game.sent (Game.set_on_game_started (fresh_game two_players)).2
  = [Emit GAME_STARTED [("message", "game started")] (Some "sid-a");
     Emit GAME_STARTED [("message", "game started")] (Some "sid-b")].
Proof.
  rewrite (game_started_to_both (fresh_game two_players) eq_refl eq_refl).
  reflexivity.
Defined.

Lemma stale_entry_blocks_battle_witness :
  Game.sent (deliver_all draw_simulation signals_after_reconnection alice_reconnected) = [].
Proof.
  assert (Hk : Game.players_quiz_and_units_ready (Game.self alice_reconnected) !! "sid-a"
               = Some Game.not_ready) by (vm_compute; reflexivity).
  assert (Hf : Game.not_ready !! "units" = Some false) by (vm_compute; reflexivity).
  assert (H0 : id (first_player alice_reconnected) ≠ "sid-a") by discriminate.
  assert (H1 : id (second_player alice_reconnected) ≠ "sid-a") by discriminate.
  exact (proj1 (stale_entry_blocks_battle draw_simulation "sid-a" Game.not_ready "units"
                  signals_after_reconnection alice_reconnected Hk Hf H0 H1)).
Defined.

Lemma signal_under_new_id_raises_KeyError_witness :
  Game.save_what_is_ready draw_simulation "sid-a2" "units" alice_reconnected
  = (Raise KeyError, alice_reconnected).
Proof.
  apply (signal_under_new_id_raises_KeyError draw_simulation 0 1 two_players
           (Player.reconnect 0 "sid-a2" two_players) [] "sid-a2" "units").
  - left. reflexivity.
  - discriminate.
  - discriminate.
Defined.

Lemma four_signals_in_any_order_witness :
  ∃ s', deliver draw_simulation
          (take 4 [Score "sid-b" "7"; UnitsReady "sid-a"; Score "sid-a" "9";
                   UnitsReady "sid-b"])
          (fresh_game two_players) = (Ok tt, s')
        ∧ simulations (Game.sent s') = 1.
Proof.
  assert (Hne : id (obj two_players 0) ≠ id (obj two_players 1)) by discriminate.
  assert (Hperm : [Score "sid-b" "7"; UnitsReady "sid-a"; Score "sid-a" "9";
                   UnitsReady "sid-b"]
                  ≡ₚ [UnitsReady (id (obj two_players 0)); Score (id (obj two_players 0)) "9";
                      UnitsReady (id (obj two_players 1)); Score (id (obj two_players 1)) "7"]).
  { change (id (obj two_players 0)) with "sid-a".
    change (id (obj two_players 1)) with "sid-b".
    rewrite (Permutation_cons_append [UnitsReady "sid-a"; Score "sid-a" "9"; UnitsReady "sid-b"]).
    reflexivity. }
  exact (four_signals_in_any_order draw_simulation two_players 0 1 "9" "7" _ 4 Hne Hperm).
Defined.

Lemma shared_connection_id_two_signals_witness :
  ∃ s1, deliver draw_simulation [UnitsReady "sid-a"; Score "sid-a" "9"]
          (fresh_game shared_connection) = (Ok tt, s1)
        ∧ simulations (Game.sent s1) = 1.
Proof.
  destruct (shared_connection_id_two_signals draw_simulation shared_connection 0 1 "9"
              eq_refl) as (s1 & s2 & Hrun & Hn & _).
  exists s1. split; [exact Hrun | exact Hn].
Defined.

(** ** GameApp: lookups *)

Lemma head_filter_None {A} (P : A → Prop) `{!∀ x, Decision (P x)} (l : list A) :
  head (filter P l) = None ↔ Forall (λ x, ¬ P x) l.
Proof.
  rewrite head_None. induction l as [|x l IH]; [by split; constructor|].
  rewrite Forall_cons. destruct (decide (P x)).
  - rewrite filter_cons_True by done. split; [done|tauto].
  - rewrite filter_cons_False by done. tauto.
Qed.

Lemma head_filter_Some {A} (P : A → Prop) `{!∀ x, Decision (P x)} (l : list A) x :
  head (filter P l) = Some x ↔ first_with P l x.
Proof.
  unfold first_with. induction l as [|y l IH].
  - split; [done|]. intros (l1 & l2 & Heq & _). by destruct l1.
  - destruct (decide (P y)) as [Hy|Hy].
    + rewrite filter_cons_True by done. cbn [head]. split.
      * intros [= ->]. exists [], l. by split_and!.
      * intros (l1 & l2 & Heq & Hx & Hl1). destruct l1 as [|z l1].
        -- by injection Heq as -> _.
        -- injection Heq as -> _. by apply Forall_cons in Hl1 as [? _].
    + rewrite filter_cons_False by done. rewrite IH. split.
      * intros (l1 & l2 & -> & Hx & Hl1). exists (y :: l1), l2.
        split_and!; [done|done|by constructor].
      * intros (l1 & l2 & Heq & Hx & Hl1). destruct l1 as [|z l1].
        -- injection Heq as -> _. done.
        -- injection Heq as -> ->. apply Forall_cons in Hl1 as [_ Hl1]. eauto.
Qed.

Lemma last_filter_None {A} (P : A → Prop) `{!∀ x, Decision (P x)} (l : list A) :
  last (filter P l) = None ↔ Forall (λ x, ¬ P x) l.
Proof. by rewrite last_None, <- head_None, head_filter_None. Qed.

Lemma last_filter_Some {A} (P : A → Prop) `{!∀ x, Decision (P x)} (l : list A) x :
  last (filter P l) = Some x ↔ last_with P l x.
Proof.
  unfold last_with. split.
  - induction l as [|y l IH] using rev_ind; [done|].
    rewrite filter_app. destruct (decide (P y)) as [Hy|Hy].
    + rewrite (filter_cons_True P y []) by done. rewrite filter_nil, last_snoc.
      intros [= ->]. exists l, []. by split_and!.
    + rewrite (filter_cons_False P y []) by done. rewrite filter_nil, app_nil_r.
      intros (l1 & l2 & -> & Hx & Hl2)%IH. exists l1, (l2 ++ [y]).
      split_and!; [by rewrite <- app_assoc|done|].
      apply Forall_app. split; [done|by apply Forall_singleton].
  - intros (l1 & l2 & -> & Hx & Hl2). rewrite filter_app, filter_cons_True by done.
    apply (last_filter_None P) in Hl2. apply last_None in Hl2.
    rewrite Hl2. apply last_snoc.
Qed.

(** X13: [get_player_by_nick] and [get_player_by_id] return the player
    registered first among those with the nickname, or the connection id,
    asked for, and [None] exactly when no registered player has it. *)
Theorem lookups_return_first_match (app : GameApp.t) (h : Heap) (key : string) :
  (GameApp.get_player_by_nick app h key = None
   ↔ Forall (λ p, nick (obj h p) ≠ key) (GameApp.players app))
  ∧ (∀ p, GameApp.get_player_by_nick app h key = Some p
          ↔ first_with (λ q, nick (obj h q) = key) (GameApp.players app) p)
  ∧ (GameApp.get_player_by_id app h key = None
     ↔ Forall (λ p, id (obj h p) ≠ key) (GameApp.players app))
  ∧ (∀ p, GameApp.get_player_by_id app h key = Some p
          ↔ first_with (λ q, id (obj h q) = key) (GameApp.players app) p).
Proof.
  unfold GameApp.get_player_by_nick, GameApp.get_player_by_id. split_and!.
  - apply head_filter_None.
  - intros p. apply head_filter_Some.
  - apply head_filter_None.
  - intros p. apply head_filter_Some.
Qed.

Lemma get_player_game_last games h n :
  Matchmaking.get_player_game games h n = last (filter (Matchmaking.plays h n) games).
Proof.
  unfold Matchmaking.get_player_game. cbv zeta. rewrite last_lookup.
  destruct (filter (Matchmaking.plays h n) games) as [|g l]; [done|].
  rewrite decide_True by (cbn; lia). f_equal. cbn. lia.
Qed.

(** X14: [get_player_game] returns the game appended last to
    [current_games] among those in which a player has the nickname, and
    [None] exactly when there is no such game. *)
Theorem get_player_game_most_recent (games : list Game.t) (h : Heap) (n : string) :
  (Matchmaking.get_player_game games h n = None
   ↔ Forall (λ g, ¬ Matchmaking.plays h n g) games)
  ∧ (∀ g, Matchmaking.get_player_game games h n = Some g
          ↔ last_with (Matchmaking.plays h n) games g).
Proof.
  rewrite get_player_game_last. split.
  - apply last_filter_None.
  - intros g. apply last_filter_Some.
Qed.

(** ** GameApp: what every sequence of calls keeps *)

Lemma add_player_cases n i app h :
  (∃ p, p ∈ GameApp.players app ∧ nick (obj h p) = n
        ∧ GameApp.add_player n i app h = (p, app, set_id p i h))
  ∨ (Forall (λ p, nick (obj h p) ≠ n) (GameApp.players app)
     ∧ GameApp.add_player n i app h
       = (top h,
          GameApp.mk (GameApp.players app ++ [top h])
            (WaitingRoom.join (GameApp.waiting_room app) (top h)),
          (alloc h (Player.__init__ n i)).2)).
Proof.
  unfold GameApp.add_player.
  destruct (GameApp.get_player_by_nick app h n) as [p|] eqn:Hget.
  - left. exists p. destruct (get_player_by_nick_Some _ _ _ _ Hget). by split_and!.
  - right. split; [|done]. by apply (head_filter_None (λ p, nick (obj h p) = n)).
Qed.

Lemma join_players room p x :
  x ∈ WaitingRoom.players (WaitingRoom.join room p) → x = p ∨ x ∈ WaitingRoom.players room.
Proof.
  unfold WaitingRoom.join. case_match; [|tauto]. cbn.
  rewrite elem_of_union, elem_of_singleton. tauto.
Qed.

Lemma step_queue_ok st c : queue_ok st.1 → queue_ok (GameApp.step st c).1.
Proof.
  destruct st as [app h]. cbn [fst]. intros (Hcap & Hsize & Hsub).
  assert (Hle : (Z.of_nat (size (WaitingRoom.players (GameApp.waiting_room app)))
                 ≤ WaitingRoom.capacity (GameApp.waiting_room app))%Z) by lia.
  destruct c as [n i|p|rnd]; cbn [GameApp.step fst snd].
  - destruct (add_player_cases n i app h) as [(p & _ & _ & ->)|[_ ->]]; cbn [fst snd].
    + done.
    + unfold queue_ok. cbn [GameApp.waiting_room GameApp.players].
      pose proof (join_within_capacity _ (top h) Hle) as Hle'.
      rewrite join_capacity in *. split_and!; [done|lia|].
      intros x [->|Hx]%join_players; apply elem_of_app; [right|left; auto].
      by apply list_elem_of_singleton.
  - unfold queue_ok, GameApp.disconnect_player. cbn [fst GameApp.waiting_room GameApp.players].
    destruct (leave_players_subseteq (GameApp.waiting_room app) p) as [Hsub' ->].
    split_and!; [done| |by auto]. apply subseteq_size in Hsub'. lia.
  - destruct (GameApp.is_waiting_room_full app); [|done].
    destruct (draw_players_subseteq rnd (GameApp.waiting_room app) h) as [Hsub' Hcap'].
    destruct (WaitingRoom.draw_two_players_to_game rnd (GameApp.waiting_room app) h)
      as [[r room'] h']. cbn [fst snd] in *.
    unfold queue_ok. cbn [GameApp.waiting_room GameApp.players].
    split_and!; [congruence| |by auto]. apply subseteq_size in Hsub'. lia.
Qed.

Lemma run_queue_ok calls : ∀ st, queue_ok st.1 → queue_ok (GameApp.run calls st).1.
Proof.
  induction calls as [|c calls IH]; intros st Hok; [done|].
  change (GameApp.run (c :: calls) st) with (GameApp.run calls (GameApp.step st c)).
  apply IH. by apply step_queue_ok.
Qed.

Lemma init_queue_ok : queue_ok GameApp.__init__.
Proof.
  unfold queue_ok. cbn. split_and!; [done|by rewrite size_empty; lia|].
  intros p Hp. by apply not_elem_of_empty in Hp.
Qed.

(** X15: after any sequence of registrations, disconnections and draws, no
    two registered players have the same nickname, and [get_player_by_nick]
    finds every registered player under the player's own nickname. *)
Theorem nicknames_stay_unique (calls : list GameApp.call) (h0 : Heap) :
  let st := GameApp.run calls (GameApp.__init__, h0) in
  NoDup ((λ p, nick (obj st.2 p)) <$> GameApp.players st.1)
  ∧ ∀ p, p ∈ GameApp.players st.1 →
         GameApp.get_player_by_nick st.1 st.2 (nick (obj st.2 p)) = Some p.
Proof.
  intros st.
  assert (Hok : registry_ok st.1 st.2) by apply run_registry_ok, init_registry_ok.
  split; [apply Hok|]. intros p Hp. by apply get_player_by_nick_found.
Qed.

(** X16: after any sequence of registrations, disconnections and draws, the
    waiting room of the application still has capacity 2, holds at most two
    players, and holds only registered players. *)
Theorem queue_stays_small (calls : list GameApp.call) (h0 : Heap) :
  let st := GameApp.run calls (GameApp.__init__, h0) in
  WaitingRoom.capacity (GameApp.waiting_room st.1) = 2%Z
  ∧ size (WaitingRoom.players (GameApp.waiting_room st.1)) ≤ 2
  ∧ ∀ p, p ∈ WaitingRoom.players (GameApp.waiting_room st.1) → p ∈ GameApp.players st.1.
Proof. intros st. apply (run_queue_ok calls (GameApp.__init__, h0)), init_queue_ok. Qed.

(** X17: a registered player who is disconnected and registers again under
    the same nickname gets the same player object back and is not put back
    into the waiting room; the list of registered players is as before. *)
Theorem reconnection_does_not_queue (calls : list GameApp.call) (h0 : Heap) (p : nat)
    (i : string) :
  let st := GameApp.run calls (GameApp.__init__, h0) in
  p ∈ GameApp.players st.1 →
  let gone := GameApp.disconnect_player p st.1 st.2 in
  let back := GameApp.add_player (nick (obj st.2 p)) i gone.1 gone.2 in
  back.1.1 = p
  ∧ (p ∉ WaitingRoom.players (GameApp.waiting_room back.1.2))
  ∧ GameApp.players back.1.2 = GameApp.players st.1.
Proof.
  intros st Hp gone back.
  assert (Hok : registry_ok st.1 st.2) by apply run_registry_ok, init_registry_ok.
  assert (Hgone : registry_ok gone.1 gone.2).
  { apply (step_registry_ok st (GameApp.DisconnectPlayer p) Hok). }
  assert (Hnick : nick (obj gone.2 p) = nick (obj st.2 p)).
  { unfold gone, GameApp.disconnect_player, Player.disconnect. cbn [snd].
    apply nick_set_in_game. }
  assert (Hback : back = (p, gone.1, set_id p i gone.2)).
  { apply add_player_existing; [done| |done]. exact Hp. }
  rewrite Hback. cbn [fst snd]. split_and!; [done| |done].
  unfold gone, GameApp.disconnect_player, WaitingRoom.leave.
  cbn [fst GameApp.waiting_room]. case_bool_decide as Hin; [|done].
  cbn [WaitingRoom.players]. rewrite elem_of_difference, elem_of_singleton. tauto.
Qed.

Lemma reconnection_does_not_queue_witness :
  (GameApp.add_player "alice" "sid-a2"
     (GameApp.disconnect_player 0
        (GameApp.run some_calls (GameApp.__init__, empty_heap)).1
        (GameApp.run some_calls (GameApp.__init__, empty_heap)).2).1
     (GameApp.disconnect_player 0
        (GameApp.run some_calls (GameApp.__init__, empty_heap)).1
        (GameApp.run some_calls (GameApp.__init__, empty_heap)).2).2).1.1 = 0.
Proof.
  assert (Hp : 0 ∈ GameApp.players (GameApp.run some_calls (GameApp.__init__, empty_heap)).1).
  { vm_compute. constructor. }
  exact (proj1 (reconnection_does_not_queue some_calls empty_heap 0 "sid-a2" Hp)).
Defined.

(** ** A turn of start_games *)

Lemma get_player_game_newest games g h n :
  Matchmaking.plays h n g → Matchmaking.get_player_game (games ++ [g]) h n = Some g.
Proof.
  intros Hg. rewrite get_player_game_last, filter_app, filter_cons_True by done.
  rewrite filter_nil. apply last_snoc.
Qed.

(** X18: a turn of [start_games] that finds the waiting room not full does
    nothing.  A turn that finds it full, the capacity being at least 2,
    never fails and never declares a walkover: it takes two different
    waiting players out of the room, marks them in game, appends their game
    to [current_games] and sends [GAME_STARTED] to each of the two and
    nothing else; from then on [get_player_game] answers with that game for
    the nickname of either. *)
Theorem turn_of_start_games rnd (app : GameApp.t) (games : list Game.t) (h : Heap)
    (sent : list effect) :
  (GameApp.is_waiting_room_full app = false →
   Matchmaking.start_games_turn rnd app games h sent = (Ok tt, app, games, h, sent))
  ∧ (GameApp.is_waiting_room_full app = true →
     (2 ≤ WaitingRoom.capacity (GameApp.waiting_room app))%Z →
     ∃ a b h',
       a ≠ b
       ∧ a ∈ WaitingRoom.players (GameApp.waiting_room app)
       ∧ b ∈ WaitingRoom.players (GameApp.waiting_room app)
       ∧ h' = set_in_game b true (set_in_game a true h)
       ∧ in_game (obj h' a) = true ∧ in_game (obj h' b) = true
       ∧ Matchmaking.start_games_turn rnd app games h sent
         = (Ok tt,
            GameApp.mk (GameApp.players app)
              (WaitingRoom.mk
                 (WaitingRoom.players (GameApp.waiting_room app) ∖ {[a]} ∖ {[b]})
                 (WaitingRoom.capacity (GameApp.waiting_room app))),
            games ++ [Game.__init__ (a, b) h'],
            h',
            sent ++ [Emit GAME_STARTED [("message", "game started")] (Some (id (obj h a)));
                     Emit GAME_STARTED [("message", "game started")] (Some (id (obj h b)))])
       ∧ Matchmaking.get_player_game (games ++ [Game.__init__ (a, b) h']) h'
           (nick (obj h a)) = Some (Game.__init__ (a, b) h')
       ∧ Matchmaking.get_player_game (games ++ [Game.__init__ (a, b) h']) h'
           (nick (obj h b)) = Some (Game.__init__ (a, b) h')).
Proof.
  unfold Matchmaking.start_games_turn. split; [by intros ->|].
  intros Hfull Hcap. rewrite Hfull.
  unfold GameApp.is_waiting_room_full, WaitingRoom.is_full in Hfull.
  apply bool_decide_eq_true in Hfull.
  destruct (sample2_some (elements (WaitingRoom.players (GameApp.waiting_room app))) rnd)
    as (a & b & Hs).
  { change (2 ≤ size (WaitingRoom.players (GameApp.waiting_room app))). lia. }
  destruct (sample2_distinct _ _ _ _ (NoDup_elements _) Hs) as (Ha & Hb & Hab).
  rewrite elem_of_elements in Ha, Hb.
  exists a, b, (set_in_game b true (set_in_game a true h)).
  assert (Hina : in_game (obj (set_in_game b true (set_in_game a true h)) a) = true).
  { rewrite !in_game_set_in_game. repeat case_decide; done. }
  assert (Hinb : in_game (obj (set_in_game b true (set_in_game a true h)) b) = true).
  { rewrite in_game_set_in_game. by rewrite decide_True. }
  split_and!; try done.
  - rewrite (draw_unfold rnd _ h a b Hs), set_on_game_started_eq.
    unfold first_player, second_player. cbn [Game.self Game.heap Game.sent Game.__init__
      Game.players fst snd]. rewrite Hina, Hinb. cbn [andb].
    by rewrite !id_set_in_game.
  - apply get_player_game_newest. unfold Matchmaking.plays. cbn [Game.__init__ Game.players fst].
    rewrite !nick_set_in_game. apply list_elem_of_here.
  - apply get_player_game_newest. unfold Matchmaking.plays. cbn [Game.__init__ Game.players fst snd].
    rewrite !nick_set_in_game. apply list_elem_of_further, list_elem_of_here.
Qed.

Lemma turn_of_start_games_witness :
  ∃ a b,
    a ≠ b
    ∧ (Matchmaking.start_games_turn (0, 0) two_registered.1 [] two_registered.2 []).2
      = [Emit GAME_STARTED [("message", "game started")]
           (Some (id (obj two_registered.2 a)));
         Emit GAME_STARTED [("message", "game started")]
           (Some (id (obj two_registered.2 b)))].
Proof.
  assert (Hfull : GameApp.is_waiting_room_full two_registered.1 = true)
    by (vm_compute; reflexivity).
  assert (Hcap : (2 ≤ WaitingRoom.capacity (GameApp.waiting_room two_registered.1))%Z)
    by (vm_compute; discriminate).
  destruct (proj2 (turn_of_start_games (0, 0) two_registered.1 [] two_registered.2 [])
              Hfull Hcap) as (a & b & h' & Hab & _ & _ & _ & _ & _ & Hrun & _).
  exists a, b. split; [exact Hab|]. rewrite Hrun. reflexivity.
Defined.
